(** * myfind: a shallow embedding of [myfind.cpp]

    [myfind [-R] [-i] searchpath filename1 ... filenameN] forks one child
    per file name; every child walks the directory tree under
    [searchpath] and writes one line per match into a pipe shared with
    the parent, or one "File not found" line when it found nothing.

    The development follows the source file top-down:
    - [Libc]    : the few library facts the program relies on
                  ([tolower], [strcasecmp], [std::to_string], constants);
    - [Fs]      : what [opendir]/[readdir] show of a directory tree;
    - [Proc]    : a process as explicit state (what it wrote to the pipe,
                  what it wrote to stderr, which directories it opened)
                  with an exit-aware state monad;
    - [Myfind]  : [isEqualString], [handleErrorOpeningDir],
                  [searchForFile], the child branch of [main] and [main];
    - [Scope]   : the vocabulary of the properties (traversal scope,
                  matches, what a process added to the pipe);
    - the properties, each claim under its identifier. *)

From Stdlib Require Import ZArith List String Ascii Bool Lia DecimalString.
From Stdlib Require DecimalPos DecimalZ.
Import ListNotations.

Local Open Scope list_scope.
Local Open Scope string_scope.
Local Open Scope Z_scope.

(* ================================================================== *)
(** ** Library functions used by the program *)
(* ================================================================== *)

Module Libc.

(** Values of <dirent.h>, <errno.h> and <stdlib.h> on Linux. *)
Definition DT_DIR : Z := 4.
Definition DT_REG : Z := 8.
Definition EACCES : Z := 13.
Definition ENOENT : Z := 2.
Definition ENOTDIR : Z := 20.
Definition EXIT_SUCCESS : Z := 0.
Definition EXIT_FAILURE : Z := 1.

(** The line terminator written as ["\n"] in the source. *)
Definition nl : string := String (ascii_of_nat 10) EmptyString.

(** [std::to_string(int)]: the decimal rendering of a signed integer. *)
Definition to_string (n : Z) : string := NilZero.string_of_int (Z.to_int n).

(** A [std::string] seen through [c_str()]: byte [i], with the
    terminating NUL once the characters are used up. *)
Definition byte_at_head (s : string) : Z :=
  match s with
  | EmptyString => 0
  | String c _ => Z.of_nat (nat_of_ascii c)
  end.

Definition tail (s : string) : string :=
  match s with
  | EmptyString => EmptyString
  | String _ r => r
  end.

(** [tolower] in the "C" locale (the program never calls [setlocale]):
    only 'A'..'Z' are mapped. *)
Definition tolower (c : Z) : Z :=
  if (65 <=? c) && (c <=? 90) then c + 32 else c.

(** [strcasecmp(s1.c_str(), s2.c_str())]: walks both byte sequences,
    returns the difference of the first pair of lowered bytes that
    differ, and stops with 0 at a common NUL. *)
Fixpoint strcasecmp (s1 s2 : string) {struct s1} : Z :=
  match s1 with
  | EmptyString => 0 - tolower (byte_at_head s2)
  | String a r1 =>
      let c1 := Z.of_nat (nat_of_ascii a) in
      let result := tolower c1 - tolower (byte_at_head s2) in
      if result =? 0
      then (if c1 =? 0 then 0 else strcasecmp r1 (tail s2))
      else result
  end.

(** What [c_str()] lets a C function see: the bytes before the first NUL. *)
Fixpoint c_str (s : string) : list Z :=
  match s with
  | EmptyString => []
  | String a r =>
      let c := Z.of_nat (nat_of_ascii a) in
      if c =? 0 then [] else c :: c_str r
  end.

(** The case fold [strcasecmp] compares under. *)
Definition casefold (s : string) : list Z := map tolower (c_str s).

End Libc.

(* ================================================================== *)
(** ** The directory tree as [opendir] and [readdir] show it *)
(* ================================================================== *)

Module Fs.

(** The two fields of [struct dirent] the program reads. *)
Record dirent : Type := Dirent { d_name : string; d_type : Z }.

(** What [opendir] answers for a path: NULL with an [errno], or a stream
    of entries in [readdir] order.  Every entry is paired with what
    [opendir] would answer for [path + "/" + d_name]; for an entry that is
    not a directory that is a failure (ENOTDIR), and it is never asked. *)
#[warnings="-register-all"]
Inductive dirtree : Type :=
| NoDir (errno : Z)
| Dir (entries : list (dirent * dirtree)).

End Fs.

(* ================================================================== *)
(** ** A process: explicit state and an exit-aware state monad *)
(* ================================================================== *)

Module Proc.

(** What the kernel answers to the calls whose result the program
    inspects.  [realpath] resolves a path or fails; [write_ret p n] is
    the value returned by the [n]-th [write] on the pipe by process [p]
    (negative on error); [pipe_ret] is the value returned by [pipe];
    [fork_ret k] is what the [k]-th [fork] gives the parent: no child
    ([None], a negative return value) or the pid of the new child. *)
Record kernel : Type := Kernel {
  realpath : string -> option string;
  write_ret : Z -> nat -> Z;
  pipe_ret : Z;
  fork_ret : nat -> option Z
}.

(** A line on the diagnostic stream: [perror(prefix)] (the prefix
    followed by the text of the current [errno]) or text sent to
    [std::cerr]. *)
Inductive errline : Type :=
| Perror (prefix : string)
| Cerr (text : string).

(** One process.  [pipe_out] holds the records it wrote to
    [pipefd[WRITE_END]], oldest first; [err_out] what it sent to the
    diagnostic stream; [opened] the paths it passed to [opendir]. *)
Record proc : Type := MkProc {
  pid : Z;
  pipe_out : list string;
  err_out : list errline;
  opened : list string
}.

Definition fresh (p : Z) : proc :=
  {| pid := p; pipe_out := []; err_out := []; opened := [] |}.

(** A computation either returns to its caller or leaves through
    [exit(status)]. *)
Inductive outcome (A : Type) : Type :=
| Returned (a : A) (s : proc)
| Exited (status : Z) (s : proc).
Arguments Returned {A} a s.
Arguments Exited {A} status s.

Definition M (A : Type) : Type := proc -> outcome A.

Definition ret {A} (a : A) : M A := fun s => Returned a s.

Definition bind {A B} (m : M A) (f : A -> M B) : M B :=
  fun s =>
    match m s with
    | Returned a s' => f a s'
    | Exited st s' => Exited st s'
    end.

Definition final {A} (o : outcome A) : proc :=
  match o with
  | Returned _ s => s
  | Exited _ s => s
  end.

Declare Scope proc_scope.
Delimit Scope proc_scope with proc.
Notation "x <- m ;; k" := (bind m (fun x => k))
  (at level 100, m at next level, right associativity) : proc_scope.
Notation "m ;;; k" := (bind m (fun _ => k))
  (at level 100, right associativity) : proc_scope.

Definition exit {A} (status : Z) : M A := fun s => Exited status s.

Definition getpid : M Z := fun s => Returned (pid s) s.

(** The three traces a process leaves. *)
Definition with_pipe (s : proc) (line : string) : proc :=
  {| pid := pid s; pipe_out := (pipe_out s ++ [line])%list;
     err_out := err_out s; opened := opened s |}.

Definition with_err (s : proc) (e : errline) : proc :=
  {| pid := pid s; pipe_out := pipe_out s;
     err_out := (err_out s ++ [e])%list; opened := opened s |}.

Definition with_opened (s : proc) (path : string) : proc :=
  {| pid := pid s; pipe_out := pipe_out s;
     err_out := err_out s; opened := (opened s ++ [path])%list |}.

Definition perror (prefix : string) : M unit :=
  fun s => Returned tt (with_err s (Perror prefix)).

(** [opendir(path)] leaves its trace; the answer comes from the tree. *)
Definition note_opendir (path : string) : M unit :=
  fun s => Returned tt (with_opened s path).

(** [write(pipefd[WRITE_END], line, len)]: the kernel decides the return
    value; a record whose [write] did not fail is in the pipe.  (A record
    is taken as one unit: short writes are not modelled.)  Both call
    sites leave the process when a [write] fails, so the number of records
    in [pipe_out] is the number of [write] calls made before this one.
    A process killed by a signal ([SIGPIPE] when the pipe has no reader
    left) is not modelled: here [write] always returns. *)
Definition write (k : kernel) (line : string) : M Z :=
  fun s =>
    let r := write_ret k (pid s) (List.length (pipe_out s)) in
    if r <? 0 then Returned r s
    else Returned r (with_pipe s line).

End Proc.

(* ================================================================== *)
(** ** The program *)
(* ================================================================== *)

Module Myfind.
Import Libc Fs Proc.
Local Open Scope proc_scope.

(** [isEqualString]: compares two strings, with optional case
    insensitivity. *)
Definition isEqualString (s1 s2 : string) (ignoreCase : bool) : bool :=
  if ignoreCase then strcasecmp s1 s2 =? 0
  else String.eqb s1 s2.

(** [handleErrorOpeningDir]: the message depends on [errno]. *)
Definition handleErrorOpeningDir (path : string) (errno : Z) : M unit :=
  if errno =? EACCES
  then perror ("Access denied to directory: " ++ path)
  else perror ("Failed to open directory: " ++ path).

(** The record written for a match, and the one written by a child that
    found nothing. *)
Definition found_line (p : Z) (filename absPath : string) : string :=
  to_string p ++ ": " ++ filename ++ ": " ++ absPath ++ nl.

Definition notfound_line (p : Z) (filename searchpath : string) : string :=
  to_string p ++ ": " ++ filename ++ ": File not found in " ++ searchpath ++ nl.

(** [write] followed by the check of its return value that both call
    sites share: a negative count ends the process. *)
Definition write_or_die (k : kernel) (line : string) : M unit :=
  bytesWritten <- write k line ;;
  if bytesWritten <? 0
  then (perror "Error writing to pipe" ;;; exit EXIT_FAILURE)
  else ret tt.

(** [searchForFile].  [dir] is what [opendir(path)] answers.  The inner
    fixpoint is the [while ((ent = readdir(dir)) != NULL)] loop with the
    local [isFound]; [isFound || searchForFile(...)] is C++'s
    short-circuit disjunction: the right operand is evaluated only when
    [isFound] is false. *)
Fixpoint searchForFile (k : kernel) (dir : dirtree) (path filename : string)
    (isRecursive ignoreCase : bool) {struct dir} : M bool :=
  note_opendir path ;;;
  match dir with
  | Dir entries =>
      (fix loop (ents : list (dirent * dirtree)) (isFound : bool)
           {struct ents} : M bool :=
         match ents with
         | [] => ret isFound
         | (ent, sub) :: rest =>
             let fileOrDirName := d_name ent in
             let fullpath := path ++ "/" ++ fileOrDirName in
             if String.eqb fileOrDirName "." || String.eqb fileOrDirName ".."
             then loop rest isFound
             else if (d_type ent =? DT_DIR) && isRecursive
             then
               (if isFound then loop rest true
                else
                  b <- searchForFile k sub fullpath filename
                         isRecursive ignoreCase ;;
                  loop rest b)
             else if (d_type ent =? DT_REG)
                     && isEqualString fileOrDirName filename ignoreCase
             then
               match realpath k fullpath with
               | Some absPath =>
                   p <- getpid ;;
                   write_or_die k (found_line p filename absPath) ;;;
                   loop rest true
               | None => loop rest isFound
               end
             else loop rest isFound
         end) entries false
  | NoDir errno =>
      handleErrorOpeningDir path errno ;;;
      ret false
  end.

(** The [readdir] loop of [searchForFile] on its own: the entries still
    to come and the current [isFound]. *)
Fixpoint readdir_loop (k : kernel) (path filename : string)
    (isRecursive ignoreCase : bool)
    (ents : list (dirent * dirtree)) (isFound : bool) {struct ents} : M bool :=
  match ents with
  | [] => ret isFound
  | (ent, sub) :: rest =>
      let fileOrDirName := d_name ent in
      let fullpath := path ++ "/" ++ fileOrDirName in
      if String.eqb fileOrDirName "." || String.eqb fileOrDirName ".."
      then readdir_loop k path filename isRecursive ignoreCase rest isFound
      else if (d_type ent =? DT_DIR) && isRecursive
      then
        (if isFound
         then readdir_loop k path filename isRecursive ignoreCase rest true
         else
           b <- searchForFile k sub fullpath filename isRecursive ignoreCase ;;
           readdir_loop k path filename isRecursive ignoreCase rest b)
      else if (d_type ent =? DT_REG)
              && isEqualString fileOrDirName filename ignoreCase
      then
        match realpath k fullpath with
        | Some absPath =>
            p <- getpid ;;
            write_or_die k (found_line p filename absPath) ;;;
            readdir_loop k path filename isRecursive ignoreCase rest true
        | None => readdir_loop k path filename isRecursive ignoreCase rest isFound
        end
      else readdir_loop k path filename isRecursive ignoreCase rest isFound
  end.

(** The child branch of [main] (the [else] of [pid > 0]): search, report
    "not found" when the search returned false, exit. *)
Definition child (k : kernel) (root : dirtree) (searchpath filename : string)
    (isRecursive ignoreCase : bool) : M unit :=
  fileFound <- searchForFile k root searchpath filename isRecursive ignoreCase ;;
  (if negb fileFound
   then p <- getpid ;; write_or_die k (notfound_line p filename searchpath)
   else ret tt) ;;;
  exit EXIT_SUCCESS.

(** The [getopt(argc, argv, "Ri")] loop.  [getopt] is the C library's;
    the characters it returns before -1 are an input here.  [None] is the
    [default:] branch (usage message, [exit(EXIT_FAILURE)]). *)
Fixpoint getopt_loop (opts : list ascii) (isRecursive ignoreCase : bool)
  : option (bool * bool) :=
  match opts with
  | [] => Some (isRecursive, ignoreCase)
  | opt :: more =>
      if Ascii.eqb opt "R" then getopt_loop more true ignoreCase
      else if Ascii.eqb opt "i" then getopt_loop more isRecursive true
      else None
  end.

(** What one run of the parent leaves behind: its exit status, its
    diagnostic output, whether the pipe was created, the children it
    forked (each with the state it ended in), and whether it reached the
    loop that reads the pipe to end-of-file and prints what it reads. *)
Record run : Type := MkRun {
  status : Z;
  diagnostics : list errline;
  pipe_made : bool;
  children : list (outcome unit);
  drained : bool
}.

(** The [for (i = optind; i < argc; i++)] loop over the file names:
    [n] counts the [fork] calls made so far.  The result is the children
    forked and whether every [fork] succeeded. *)
Fixpoint fork_loop (k : kernel) (root : dirtree) (searchpath : string)
    (isRecursive ignoreCase : bool) (filenames : list string) (n : nat)
  : list (outcome unit) * bool :=
  match filenames with
  | [] => ([], true)
  | filename :: more =>
      match fork_ret k n with
      | None => ([], false)
      | Some p =>
          let c := child k root searchpath filename isRecursive ignoreCase
                     (fresh p) in
          let '(cs, ok) := fork_loop k root searchpath isRecursive ignoreCase
                             more (S n) in
          (c :: cs, ok)
      end
  end.

(** [main].  [argv] is the argument vector, [opts] and [optind] what the
    [getopt] loop returned and left behind, [root] what [opendir] answers
    under the search path. *)
Definition main (k : kernel) (argv : list string) (opts : list ascii)
    (optind : Z) (root : dirtree) : run :=
  let argc := Z.of_nat (List.length argv) in
  match getopt_loop opts false false with
  | None =>
      {| status := EXIT_FAILURE;
         diagnostics :=
           [Cerr ("Usage: " ++ nth 0 argv ""
                  ++ " [-R] [-i] searchpath filename1 [filename2] …[filenameN]"
                  ++ nl)];
         pipe_made := false; children := []; drained := false |}
  | Some (isRecursive, ignoreCase) =>
      if optind >=? argc - 1 then
        {| status := EXIT_FAILURE;
           diagnostics := [Cerr ("Expected arguments after options" ++ nl)];
           pipe_made := false; children := []; drained := false |}
      else if pipe_ret k =? -1 then
        {| status := EXIT_FAILURE;
           diagnostics := [Perror "Pipe error!"];
           pipe_made := false; children := []; drained := false |}
      else
        let searchpath := nth (Z.to_nat optind) argv "" in
        let filenames := skipn (Z.to_nat (optind + 1)) argv in
        match fork_loop k root searchpath isRecursive ignoreCase filenames 0 with
        | (cs, false) =>
            {| status := EXIT_FAILURE;
               diagnostics := [Perror "Child process error!"];
               pipe_made := true; children := cs; drained := false |}
        | (cs, true) =>
            {| status := 0; diagnostics := [];
               pipe_made := true; children := cs; drained := true |}
        end
  end.

(** The order in which the records of several writers reach the reader
    of the pipe: any interleaving that keeps each writer's own order. *)
Inductive interleaved : list (list string) -> list string -> Prop :=
| interleaved_end (ws : list (list string)) :
    Forall (fun w => w = []) ws -> interleaved ws []
| interleaved_next (before after : list (list string)) (x : string)
    (w out : list string) :
    interleaved (before ++ w :: after) out ->
    interleaved (before ++ (x :: w) :: after) (x :: out).

(** What the parent prints: once it reaches the read loop, the records
    of all children in arrival order; nothing when it exits before. *)
Definition prints (r : run) (out : list string) : Prop :=
  if drained r
  then interleaved (map (fun c => pipe_out (final c)) (children r)) out
  else out = [].

End Myfind.

(* ================================================================== *)
(** ** Vocabulary of the properties *)
(* ================================================================== *)

Module Scope.
Import Libc Fs Proc Myfind.

(** The self and parent pseudo-entries. *)
Definition pseudo (name : string) : bool :=
  String.eqb name "." || String.eqb name "..".

(** The regular files within the traversal scope of a directory, as
    pairs (path handed to [realpath], entry name): the regular entries of
    the directory itself and, when [recursive], those of every directory
    below it. *)
Fixpoint files_in (recursive : bool) (path : string) (dir : dirtree)
  : list (string * string) :=
  match dir with
  | NoDir _ => []
  | Dir ents =>
      flat_map
        (fun p : dirent * dirtree =>
           let name := d_name (fst p) in
           if pseudo name then []
           else if d_type (fst p) =? DT_DIR
           then (if recursive
                 then files_in recursive (path ++ "/" ++ name) (snd p)
                 else [])
           else if d_type (fst p) =? DT_REG
           then [(path ++ "/" ++ name, name)]
           else [])
        ents
  end.

(** [absPath] is the resolved path of a regular file of the scope whose
    name matches [filename] under the case policy. *)
Definition resolved_match (k : kernel) (recursive : bool) (path : string)
    (dir : dirtree) (filename : string) (ignoreCase : bool)
    (absPath : string) : Prop :=
  exists fullpath name,
    In (fullpath, name) (files_in recursive path dir)
    /\ isEqualString name filename ignoreCase = true
    /\ realpath k fullpath = Some absPath.

(** The regular files of the scope whose name matches, and the resolved
    paths of those among them that [realpath] resolves. *)
Definition matches_in_scope (recursive : bool) (path : string) (dir : dirtree)
    (filename : string) (ignoreCase : bool) : list (string * string) :=
  filter (fun fn => isEqualString (snd fn) filename ignoreCase)
    (files_in recursive path dir).

Definition resolved_in_scope (k : kernel) (recursive : bool) (path : string)
    (dir : dirtree) (filename : string) (ignoreCase : bool) : list string :=
  flat_map
    (fun fn => match realpath k (fst fn) with
               | Some absPath => [absPath]
               | None => []
               end)
    (matches_in_scope recursive path dir filename ignoreCase).

(** [s'] is [s] after the records [lines] were added to the pipe. *)
Definition wrote (s s' : proc) (lines : list string) : Prop :=
  pid s' = pid s /\ pipe_out s' = (pipe_out s ++ lines)%list.

Definition nonempty {A : Type} (l : list A) : bool :=
  match l with
  | [] => false
  | _ :: _ => true
  end.

(** The three facts about one call of [searchForFile] that are proved by
    induction on the tree.  [adds_matches]: the call adds to the pipe one
    match record per path of some list of resolved matches of its scope
    and, when it returns, returns whether that list is non-empty. *)
Definition adds_matches (k : kernel) (filename : string)
    (isRecursive ignoreCase : bool) (dir : dirtree) : Prop :=
  forall path s,
  exists paths,
    wrote s
      (final (searchForFile k dir path filename isRecursive ignoreCase s))
      (map (found_line (pid s) filename) paths)
    /\ Forall (resolved_match k isRecursive path dir filename ignoreCase) paths
    /\ forall b s',
         searchForFile k dir path filename isRecursive ignoreCase s
         = Returned b s' ->
         b = nonempty paths.

(** [exits_at_write]: the call leaves through [exit] only with
    [EXIT_FAILURE], after a [write] of the record of a resolved match
    returned a negative count. *)
Definition exits_at_write (k : kernel) (filename : string)
    (isRecursive ignoreCase : bool) (dir : dirtree) : Prop :=
  forall path s st s',
    searchForFile k dir path filename isRecursive ignoreCase s
    = Exited st s' ->
    st = EXIT_FAILURE
    /\ write_ret k (pid s') (List.length (pipe_out s')) < 0
    /\ exists a, resolved_match k isRecursive path dir filename ignoreCase a.

(** [finds_if_any]: when the call returns and some matching regular file
    of its scope resolves, it returns true. *)
Definition finds_if_any (k : kernel) (filename : string)
    (isRecursive ignoreCase : bool) (dir : dirtree) : Prop :=
  forall path s b s' a,
    searchForFile k dir path filename isRecursive ignoreCase s
    = Returned b s' ->
    resolved_match k isRecursive path dir filename ignoreCase a ->
    b = true.

(** A line is attributable to the task [p] searching [filename] under
    [searchpath]: it is that task's "not found" record or one of its
    match records. *)
Definition line_of_task (p : Z) (filename searchpath line : string) : Prop :=
  line = notfound_line p filename searchpath
  \/ exists absPath, line = found_line p filename absPath.

(** A simple tree builder for concrete scenarios. *)
Definition file (name : string) : dirent * dirtree :=
  (Dirent name DT_REG, NoDir ENOTDIR).

Definition subdir (name : string) (ents : list (dirent * dirtree))
  : dirent * dirtree :=
  (Dirent name DT_DIR, Dir ents).

(** A kernel for concrete scenarios: paths are already absolute and
    resolve to themselves, every [write] takes the whole record, [pipe]
    succeeds and the children get the pids 100, 101, ... *)
Definition plain_kernel : kernel :=
  {| realpath := fun p => Some p;
     write_ret := fun _ _ => 1;
     pipe_ret := 0;
     fork_ret := fun n => Some (100 + Z.of_nat n) |}.

(** A kernel for the scenarios in which [realpath] fails on one path. *)
Definition unresolving_kernel (bad : string) : kernel :=
  {| realpath := fun p => if String.eqb p bad then None else Some p;
     write_ret := fun _ _ => 1;
     pipe_ret := 0;
     fork_ret := fun n => Some (100 + Z.of_nat n) |}.

(** The message [handleErrorOpeningDir] passes to [perror]. *)
Definition open_error_message (path : string) (errno : Z) : string :=
  ((if (errno =? EACCES)%Z
    then "Access denied to directory: "
    else "Failed to open directory: ") ++ path)%string.

(** [l1] is [l2] with some of its elements left out, the order kept. *)
Inductive subseq {A : Type} : list A -> list A -> Prop :=
| subseq_nil : subseq [] []
| subseq_skip (x : A) (l1 l2 : list A) : subseq l1 l2 -> subseq l1 (x :: l2)
| subseq_take (x : A) (l1 l2 : list A) :
    subseq l1 l2 -> subseq (x :: l1) (x :: l2).

(** What one entry brings into the scope of its directory. *)
Definition entry_files (recursive : bool) (path : string)
    (p : dirent * dirtree) : list (string * string) :=
  let name := d_name (fst p) in
  if pseudo name then []
  else if d_type (fst p) =? DT_DIR
  then (if recursive
        then files_in recursive (path ++ "/" ++ name) (snd p)
        else [])
  else if d_type (fst p) =? DT_REG
  then [(path ++ "/" ++ name, name)]
  else [].

(** The resolved paths of the matching files of a list of files. *)
Definition resolve_all (k : kernel) (filename : string) (ignoreCase : bool)
    (files : list (string * string)) : list string :=
  flat_map
    (fun fn => match realpath k (fst fn) with
               | Some absPath => [absPath]
               | None => []
               end)
    (filter (fun fn => isEqualString (snd fn) filename ignoreCase) files).

(** The paths a complete traversal hands to [opendir], in the order of
    the traversal: the directory itself, then, when [recursive], the
    directories below it. *)
Fixpoint dirs_in (recursive : bool) (path : string) (dir : dirtree)
  : list string :=
  path ::
  match dir with
  | NoDir _ => []
  | Dir ents =>
      flat_map
        (fun p : dirent * dirtree =>
           let name := d_name (fst p) in
           if pseudo name then []
           else if (d_type (fst p) =? DT_DIR) && recursive
           then dirs_in recursive (path ++ "/" ++ name) (snd p)
           else [])
        ents
  end.

(** The diagnostics a complete traversal sends to stderr: one [perror]
    line per directory that does not open. *)
Fixpoint open_failures_in (recursive : bool) (path : string) (dir : dirtree)
  : list errline :=
  match dir with
  | NoDir errno => [Perror (open_error_message path errno)]
  | Dir ents =>
      flat_map
        (fun p : dirent * dirtree =>
           let name := d_name (fst p) in
           if pseudo name then []
           else if (d_type (fst p) =? DT_DIR) && recursive
           then open_failures_in recursive (path ++ "/" ++ name) (snd p)
           else [])
        ents
  end.

(** The option characters [main] accepts. *)
Definition known_option (opt : ascii) : bool :=
  Ascii.eqb opt "R" || Ascii.eqb opt "i".

(** The index of the first [fork] that fails among the first [n]. *)
Fixpoint first_fork_failure (k : kernel) (from n : nat) : option nat :=
  match n with
  | O => None
  | S n' =>
      match fork_ret k from with
      | None => Some from
      | Some _ => first_fork_failure k (S from) n'
      end
  end.

(** [reports_in_order]: the records of one call of [searchForFile], in
    order, are a subsequence of the resolved matches of the scope in
    traversal order, and all of them when the call returns from a search
    without the recursion flag. *)
Definition reports_in_order (k : kernel) (filename : string)
    (isRecursive ignoreCase : bool) (dir : dirtree) : Prop :=
  forall path s,
  exists paths,
    wrote s
      (final (searchForFile k dir path filename isRecursive ignoreCase s))
      (map (found_line (pid s) filename) paths)
    /\ subseq paths
         (resolved_in_scope k isRecursive path dir filename ignoreCase)
    /\ (isRecursive = false ->
        forall b s',
          searchForFile k dir path filename isRecursive ignoreCase s
          = Returned b s' ->
          paths = resolved_in_scope k isRecursive path dir filename ignoreCase).

(** What one entry adds to the directories and to the diagnostics of a
    complete traversal of its directory. *)
Definition entry_dirs (recursive : bool) (path : string)
    (p : dirent * dirtree) : list string :=
  let name := d_name (fst p) in
  if pseudo name then []
  else if (d_type (fst p) =? DT_DIR) && recursive
  then dirs_in recursive (path ++ "/" ++ name) (snd p)
  else [].

Definition entry_failures (recursive : bool) (path : string)
    (p : dirent * dirtree) : list errline :=
  let name := d_name (fst p) in
  if pseudo name then []
  else if (d_type (fst p) =? DT_DIR) && recursive
  then open_failures_in recursive (path ++ "/" ++ name) (snd p)
  else [].

(** The last diagnostic of a computation that left through a failed
    [write]. *)
Definition exit_note {A : Type} (o : outcome A) : list errline :=
  match o with
  | Returned _ _ => []
  | Exited _ _ => [Perror "Error writing to pipe"]
  end.

(** [walks_in_order]: the directories one call of [searchForFile] opens
    and the diagnostics it writes are subsequences of those of a complete
    traversal, and the whole of them when the call returns false. *)
Definition walks_in_order (k : kernel) (filename : string)
    (isRecursive ignoreCase : bool) (dir : dirtree) : Prop :=
  forall path s,
  exists ds fs,
    opened (final (searchForFile k dir path filename isRecursive ignoreCase s))
    = (opened s ++ ds)%list
    /\ err_out
         (final (searchForFile k dir path filename isRecursive ignoreCase s))
       = (err_out s ++ fs
          ++ exit_note
               (searchForFile k dir path filename isRecursive ignoreCase s))%list
    /\ subseq ds (dirs_in isRecursive path dir)
    /\ subseq fs (open_failures_in isRecursive path dir)
    /\ (forall s',
          searchForFile k dir path filename isRecursive ignoreCase s
          = Returned false s' ->
          ds = dirs_in isRecursive path dir
          /\ fs = open_failures_in isRecursive path dir).

(** A tree for concrete scenarios: two levels of directories, one
    directory that does not open, a pseudo-entry and a symbolic link. *)
Definition sample_tree : dirtree :=
  Dir [subdir "d1" [file "b.txt"; subdir "d2" []];
       (Dirent "locked" DT_DIR, NoDir EACCES);
       (Dirent "." DT_DIR, Dir []);
       (Dirent "link" 10, Dir [file "a.txt"]);
       subdir "d3" []].

(** [reports_first]: when one call of [searchForFile] returns, the first
    record it added is that of the first resolved match of its scope in
    traversal order (and it added none when there is none). *)
Definition reports_first (k : kernel) (filename : string)
    (isRecursive ignoreCase : bool) (dir : dirtree) : Prop :=
  forall path s b s',
    searchForFile k dir path filename isRecursive ignoreCase s
    = Returned b s' ->
    exists paths,
      wrote s s' (map (found_line (pid s) filename) paths)
      /\ hd_error paths
         = hd_error
             (resolved_in_scope k isRecursive path dir filename ignoreCase).

(** Entry names as [readdir] gives them: C strings, so without a NUL
    byte. *)
Fixpoint no_nul (s : string) : bool :=
  match s with
  | EmptyString => true
  | String a r => negb (Z.of_nat (nat_of_ascii a) =? 0) && no_nul r
  end.

Fixpoint names_are_c_strings (dir : dirtree) : bool :=
  match dir with
  | NoDir _ => true
  | Dir ents =>
      forallb
        (fun p : dirent * dirtree =>
           no_nul (d_name (fst p)) && names_are_c_strings (snd p))
        ents
  end.

(** A name without the character [:]. *)
Fixpoint colon_free (s : string) : bool :=
  match s with
  | EmptyString => true
  | String c r => negb (Ascii.eqb c ":") && colon_free r
  end.

(** A kernel as [plain_kernel] except that the [fork] number [n]
    fails. *)
Definition failing_fork_kernel (n : nat) : kernel :=
  {| realpath := fun p => Some p;
     write_ret := fun _ _ => 1;
     pipe_ret := 0;
     fork_ret := fun i => if Nat.eqb i n then None
                          else Some (100 + Z.of_nat i) |}.

End Scope.

(* ================================================================== *)
(** ** Properties *)
(* ================================================================== *)

Import Libc Fs Proc Myfind Scope.
Local Open Scope list_scope.

(** Induction that reaches the sub-directories behind the entries. *)
Lemma dirtree_ind' (P : dirtree -> Prop) :
  (forall e, P (NoDir e)) ->
  (forall ents, Forall (fun p => P (snd p)) ents -> P (Dir ents)) ->
  forall t, P t.
Proof.
  intros Hno Hdir.
  fix IH 1.
  intros [e | ents].
  - apply Hno.
  - apply Hdir.
    induction ents as [| [ent sub] r IHr].
    + constructor.
    + constructor; [exact (IH sub) | exact IHr].
Qed.

Section Search.

Variable k : kernel.
Variables (filename : string) (isRecursive ignoreCase : bool).

Local Abbreviation search dir path :=
  (searchForFile k dir path filename isRecursive ignoreCase).
Local Abbreviation loop path ents isFound :=
  (readdir_loop k path filename isRecursive ignoreCase ents isFound).
Local Abbreviation adds_matches dir :=
  (Scope.adds_matches k filename isRecursive ignoreCase dir).
Local Abbreviation exits_at_write dir :=
  (Scope.exits_at_write k filename isRecursive ignoreCase dir).
Local Abbreviation finds_if_any dir :=
  (Scope.finds_if_any k filename isRecursive ignoreCase dir).

(** *** Unfolding equations *)

Lemma write_or_die_eq line s :
  write_or_die k line s
  = if write_ret k (pid s) (List.length (pipe_out s)) <? 0
    then Exited EXIT_FAILURE (with_err s (Perror "Error writing to pipe"))
    else Returned tt (with_pipe s line).
Proof.
  unfold write_or_die, bind, write.
  destruct (write_ret k (pid s) (List.length (pipe_out s)) <? 0) eqn:E;
    cbn; rewrite E; reflexivity.
Qed.

Lemma handleErrorOpeningDir_eq path errno s :
  handleErrorOpeningDir path errno s
  = Returned tt
      (with_err s
         (Perror ((if (errno =? EACCES)%Z
                   then "Access denied to directory: "
                   else "Failed to open directory: ") ++ path)%string)).
Proof.
  unfold handleErrorOpeningDir. destruct (errno =? EACCES); reflexivity.
Qed.

Lemma searchForFile_NoDir errno path s :
  search (NoDir errno) path s
  = Returned false
      (with_err (with_opened s path)
         (Perror ((if (errno =? EACCES)%Z
                   then "Access denied to directory: "
                   else "Failed to open directory: ") ++ path)%string)).
Proof.
  cbn [searchForFile]. unfold bind, note_opendir.
  rewrite handleErrorOpeningDir_eq. reflexivity.
Qed.

Lemma searchForFile_Dir ents path s :
  search (Dir ents) path s = loop path ents false (with_opened s path).
Proof.
  simpl. unfold bind at 1. unfold note_opendir at 1.
  match goal with
  | |- ?f ents false ?s1 = _ =>
      enough (H : forall b s0, f ents b s0 = loop path ents b s0) by apply H
  end.
  induction ents as [| [ent sub] rest IH]; intros b s0; [reflexivity |].
  simpl.
  destruct (_ || _); [apply IH |].
  destruct (_ && isRecursive).
  - destruct b; [apply IH |].
    unfold bind. destruct (searchForFile _ _ _ _ _ _ _); [apply IH | reflexivity].
  - destruct (_ && _); [| apply IH].
    destruct (realpath _ _); [| apply IH].
    unfold bind. destruct (getpid s0).
    + destruct (write_or_die _ _ _); [apply IH | reflexivity].
    + reflexivity.
Qed.

Lemma loop_nil path isFound s : loop path [] isFound s = Returned isFound s.
Proof. reflexivity. Qed.

(** One turn of the [readdir] loop, with the monad unfolded. *)
Lemma loop_cons path ent sub rest isFound s :
  loop path ((ent, sub) :: rest) isFound s
  = let fullpath := (path ++ "/" ++ d_name ent)%string in
    if pseudo (d_name ent) then loop path rest isFound s
    else if (d_type ent =? DT_DIR) && isRecursive then
      if isFound then loop path rest true s
      else match search sub fullpath s with
           | Returned b s' => loop path rest b s'
           | Exited st s' => Exited st s'
           end
    else if (d_type ent =? DT_REG)
            && isEqualString (d_name ent) filename ignoreCase then
      match realpath k fullpath with
      | Some absPath =>
          if write_ret k (pid s) (List.length (pipe_out s)) <? 0
          then Exited EXIT_FAILURE
                 (with_err s (Perror "Error writing to pipe"))
          else loop path rest true
                 (with_pipe s (found_line (pid s) filename absPath))
      | None => loop path rest isFound s
      end
    else loop path rest isFound s.
Proof.
  cbn [readdir_loop]. unfold pseudo. cbv zeta.
  destruct (_ || _); [reflexivity |].
  destruct (_ && isRecursive).
  - destruct isFound; reflexivity.
  - destruct (_ && _); [| reflexivity].
    destruct (realpath _ _); [| reflexivity].
    unfold bind at 1. unfold getpid at 1. unfold bind at 1.
    rewrite write_or_die_eq.
    destruct (_ <? 0); reflexivity.
Qed.

(** *** What a search adds to the pipe *)

Lemma wrote_refl s : wrote s s [].
Proof. split; [reflexivity | now rewrite app_nil_r]. Qed.

Lemma wrote_trans s1 s2 s3 l1 l2 :
  wrote s1 s2 l1 -> wrote s2 s3 l2 -> wrote s1 s3 (l1 ++ l2).
Proof.
  intros [Hp1 Ho1] [Hp2 Ho2]. split; [congruence |].
  rewrite Ho2, Ho1, app_assoc. reflexivity.
Qed.

Lemma wrote_with_err s e : wrote s (with_err s e) [].
Proof. split; [reflexivity | cbn; now rewrite app_nil_r]. Qed.

Lemma wrote_with_opened s path : wrote s (with_opened s path) [].
Proof. split; [reflexivity | cbn; now rewrite app_nil_r]. Qed.

Lemma wrote_with_pipe s line : wrote s (with_pipe s line) [line].
Proof. split; reflexivity. Qed.

Lemma nonempty_app {A} (l1 l2 : list A) :
  nonempty (l1 ++ l2) = nonempty l1 || nonempty l2.
Proof. destruct l1; reflexivity. Qed.

Lemma resolved_match_rest path e rest a :
  resolved_match k isRecursive path (Dir rest) filename ignoreCase a ->
  resolved_match k isRecursive path (Dir (e :: rest)) filename ignoreCase a.
Proof.
  intros (fp & n & Hin & Hm & Hr). exists fp, n. repeat split; trivial.
  cbn [files_in flat_map] in *. apply in_or_app. now right.
Qed.

Lemma resolved_match_sub path ent sub rest a :
  pseudo (d_name ent) = false ->
  (d_type ent =? DT_DIR) && isRecursive = true ->
  resolved_match k isRecursive (path ++ "/" ++ d_name ent)%string sub
    filename ignoreCase a ->
  resolved_match k isRecursive path (Dir ((ent, sub) :: rest))
    filename ignoreCase a.
Proof.
  intros Hps Hdir (fp & n & Hin & Hm & Hr). exists fp, n. repeat split; trivial.
  apply andb_true_iff in Hdir as [Hd Hrec].
  cbn [files_in flat_map fst snd]. rewrite Hps, Hd. rewrite Hrec at 1.
  apply in_or_app. now left.
Qed.

Lemma resolved_match_here path ent sub rest a :
  pseudo (d_name ent) = false ->
  (d_type ent =? DT_REG) && isEqualString (d_name ent) filename ignoreCase
  = true ->
  realpath k (path ++ "/" ++ d_name ent)%string = Some a ->
  resolved_match k isRecursive path (Dir ((ent, sub) :: rest))
    filename ignoreCase a.
Proof.
  intros Hps Hreg Hr. apply andb_true_iff in Hreg as [Hd Hm].
  exists (path ++ "/" ++ d_name ent)%string, (d_name ent). repeat split; trivial.
  cbn [files_in flat_map fst snd]. rewrite Hps, Hd.
  apply Z.eqb_eq in Hd. rewrite Hd. cbn. now left.
Qed.

Lemma loop_adds_matches ents :
  Forall (fun p => adds_matches (snd p)) ents ->
  forall path isFound s,
  exists paths,
    wrote s (final (loop path ents isFound s))
      (map (found_line (pid s) filename) paths)
    /\ Forall (resolved_match k isRecursive path (Dir ents) filename ignoreCase)
         paths
    /\ forall b s', loop path ents isFound s = Returned b s' ->
                    b = isFound || nonempty paths.
Proof.
  induction 1 as [| [ent sub] rest Hsub _ IH]; intros path isFound s.
  - exists []. rewrite loop_nil. cbn. split; [apply wrote_refl |].
    split; [constructor |].
    intros b s' [= <- <-]. now rewrite orb_false_r.
  - rewrite loop_cons. cbv zeta.
    assert (Hrest : forall isFound' s1 pre,
               wrote s s1 (map (found_line (pid s) filename) pre) ->
               Forall (resolved_match k isRecursive path
                         (Dir ((ent, sub) :: rest)) filename ignoreCase) pre ->
               exists more,
                 wrote s (final (loop path rest isFound' s1))
                   (map (found_line (pid s) filename) (pre ++ more))
                 /\ Forall (resolved_match k isRecursive path
                              (Dir ((ent, sub) :: rest)) filename ignoreCase)
                      (pre ++ more)
                 /\ forall b s', loop path rest isFound' s1 = Returned b s' ->
                                 b = isFound' || nonempty more).
    { intros isFound' s1 pre Hw Hpre.
      destruct (IH path isFound' s1) as (more & Hw2 & Hall & Hb).
      exists more. split; [| split].
      - rewrite map_app. eapply wrote_trans; [exact Hw |].
        destruct Hw as [Hp _]. rewrite <- Hp. exact Hw2.
      - apply Forall_app. split; [exact Hpre |].
        eapply Forall_impl; [| exact Hall].
        intros a. apply resolved_match_rest.
      - exact Hb. }
    destruct (pseudo (d_name ent)) eqn:Hps.
    { destruct (Hrest isFound s [] (wrote_refl s) (Forall_nil _))
        as (more & ? & ? & Hb).
      exists more. split; [| split]; assumption. }
    destruct ((d_type ent =? DT_DIR) && isRecursive) eqn:Hdir.
    { destruct isFound.
      - destruct (Hrest true s [] (wrote_refl s) (Forall_nil _))
          as (more & ? & ? & Hb).
        exists more. split; [| split]; trivial.
      - destruct (Hsub (path ++ "/" ++ d_name ent)%string s)
          as (pre & Hw & Hall & Hb). cbn [snd] in *.
        assert (Hpre : Forall (resolved_match k isRecursive path
                                 (Dir ((ent, sub) :: rest))
                                 filename ignoreCase) pre).
        { eapply Forall_impl; [| exact Hall].
          intros a. now apply resolved_match_sub. }
        destruct (search sub _ s) as [b1 s1 | st s1] eqn:E1; cbn [final] in Hw.
        + destruct (Hrest b1 s1 pre Hw Hpre) as (more & ? & ? & Hb2).
          exists (pre ++ more). split; [| split]; trivial.
          intros b s' E. rewrite (Hb2 _ _ E), (Hb _ _ eq_refl), nonempty_app.
          reflexivity.
        + exists pre. split; [| split]; try discriminate; trivial. }
    destruct ((d_type ent =? DT_REG)
              && isEqualString (d_name ent) filename ignoreCase) eqn:Hreg.
    { destruct (realpath k (path ++ "/" ++ d_name ent)%string) as [a |] eqn:Hr.
      - destruct (write_ret k (pid s) (List.length (pipe_out s)) <? 0).
        + exists []. cbn [final map]. split; [| split]; try discriminate.
          * apply wrote_with_err.
          * constructor.
        + destruct (Hrest true (with_pipe s (found_line (pid s) filename a))
                      [a] (wrote_with_pipe _ _)) as (more & ? & ? & Hb).
          { constructor; [| constructor].
            eapply resolved_match_here; eassumption. }
          exists ([a] ++ more). split; [| split]; trivial.
          intros b s' E. rewrite (Hb _ _ E). cbn.
          now rewrite orb_true_r.
      - destruct (Hrest isFound s [] (wrote_refl s) (Forall_nil _))
          as (more & ? & ? & Hb).
        exists more. split; [| split]; trivial. }
    destruct (Hrest isFound s [] (wrote_refl s) (Forall_nil _))
      as (more & ? & ? & Hb).
    exists more. split; [| split]; trivial.
Qed.

(** Every call adds to the pipe exactly one match record per path of
    some list of resolved matches of its scope, and when it returns, it
    returns whether that list is non-empty. *)
Lemma search_adds_matches dir : adds_matches dir.
Proof.
  induction dir as [errno | ents IH] using dirtree_ind'; intros path s.
  - exists []. rewrite searchForFile_NoDir. cbn [final map].
    split; [| split].
    + eapply (wrote_trans _ _ _ [] []);
        [apply wrote_with_opened | apply wrote_with_err].
    + constructor.
    + now intros b s' [= <- _].
  - rewrite searchForFile_Dir.
    destruct (loop_adds_matches ents IH path false (with_opened s path))
      as (paths & Hw & Hall & Hb).
    exists paths. split; [| split]; trivial.
Qed.

(** *** When a search leaves through [exit] *)

Lemma loop_exits_at_write ents :
  Forall (fun p => exits_at_write (snd p)) ents ->
  forall path isFound s st s',
    loop path ents isFound s = Exited st s' ->
    st = EXIT_FAILURE
    /\ write_ret k (pid s') (List.length (pipe_out s')) < 0
    /\ exists a,
         resolved_match k isRecursive path (Dir ents) filename ignoreCase a.
Proof.
  induction 1 as [| [ent sub] rest Hsub _ IH]; intros path isFound s st s'.
  - rewrite loop_nil. discriminate.
  - assert (Hrest : forall isFound' s1,
               loop path rest isFound' s1 = Exited st s' ->
               st = EXIT_FAILURE
               /\ write_ret k (pid s') (List.length (pipe_out s')) < 0
               /\ exists a, resolved_match k isRecursive path
                              (Dir ((ent, sub) :: rest)) filename ignoreCase a).
    { intros isFound' s1 E.
      destruct (IH _ _ _ _ _ E) as (? & ? & a & Ha).
      split; [| split]; trivial. exists a. now apply resolved_match_rest. }
    rewrite loop_cons. cbv zeta.
    destruct (pseudo (d_name ent)) eqn:Hps; [apply Hrest |].
    destruct ((d_type ent =? DT_DIR) && isRecursive) eqn:Hdir.
    { destruct isFound; [apply Hrest |].
      destruct (search sub _ s) as [b1 s1 | st1 s1] eqn:E1; [apply Hrest |].
      intros [= -> ->].
      destruct (Hsub _ _ _ _ E1) as (? & ? & a & Ha). cbn [snd] in *.
      split; [| split]; trivial. exists a. now apply resolved_match_sub. }
    destruct ((d_type ent =? DT_REG)
              && isEqualString (d_name ent) filename ignoreCase) eqn:Hreg;
      [| apply Hrest].
    destruct (realpath k (path ++ "/" ++ d_name ent)%string) as [a |] eqn:Hr;
      [| apply Hrest].
    destruct (write_ret k (pid s) (List.length (pipe_out s)) <? 0) eqn:Hw;
      [| apply Hrest].
    intros [= <- <-]. cbn [with_err pid pipe_out].
    split; [reflexivity | split; [now apply Z.ltb_lt |]].
    exists a. eapply resolved_match_here; eassumption.
Qed.

Lemma search_exits_at_write dir : exits_at_write dir.
Proof.
  induction dir as [errno | ents IH] using dirtree_ind';
    intros path s st s'.
  - rewrite searchForFile_NoDir. discriminate.
  - rewrite searchForFile_Dir. apply loop_exits_at_write, IH.
Qed.

(** A process whose writes are all accepted returns from every search. *)
Lemma search_returns dir path s :
  (forall n, 0 <= write_ret k (pid s) n) ->
  exists b s', search dir path s = Returned b s'.
Proof.
  intros Hok.
  destruct (search dir path s) as [b s' | st s'] eqn:E; [eauto |].
  destruct (search_exits_at_write dir path s st s' E) as (_ & Hneg & _).
  destruct (search_adds_matches dir path s) as (paths & [Hp _] & _).
  rewrite E in Hp. cbn [final] in Hp. rewrite Hp in Hneg.
  specialize (Hok (List.length (pipe_out s'))). lia.
Qed.

(** Where no match of the scope resolves, the search writes nothing and
    returns false, whatever the pipe would do. *)
Lemma search_nothing dir path s :
  (forall a, ~ resolved_match k isRecursive path dir filename ignoreCase a) ->
  exists s', search dir path s = Returned false s'
             /\ pid s' = pid s /\ pipe_out s' = pipe_out s.
Proof.
  intros Hnone.
  destruct (search_adds_matches dir path s) as (paths & Hw & Hall & Hb).
  assert (paths = []) as ->.
  { destruct paths as [| a r]; [reflexivity |].
    inversion Hall; subst. now destruct (Hnone a). }
  destruct (search dir path s) as [b s' | st s'] eqn:E.
  - exists s'. rewrite (Hb _ _ eq_refl). destruct Hw as [Hp Ho].
    cbn in Ho. rewrite app_nil_r in Ho. auto.
  - destruct (search_exits_at_write dir path s st s' E) as (_ & _ & a & Ha).
    now destruct (Hnone a).
Qed.

(** *** The child process *)

Lemma child_eq root searchpath s :
  child k root searchpath filename isRecursive ignoreCase s
  = match search root searchpath s with
    | Returned true s1 => Exited EXIT_SUCCESS s1
    | Returned false s1 =>
        if write_ret k (pid s1) (List.length (pipe_out s1)) <? 0
        then Exited EXIT_FAILURE
               (with_err s1 (Perror "Error writing to pipe"))
        else Exited EXIT_SUCCESS
               (with_pipe s1 (notfound_line (pid s1) filename searchpath))
    | Exited st s1 => Exited st s1
    end.
Proof.
  unfold child. unfold bind at 1.
  destruct (search root searchpath s) as [[|] s1 | st s1]; try reflexivity.
  cbn [negb]. unfold bind at 1. unfold bind at 1. unfold getpid at 1.
  rewrite write_or_die_eq.
  destruct (_ <? 0); reflexivity.
Qed.

(** A child that found no resolvable match and whose one [write] is
    accepted leaves exactly the "not found" record in the pipe. *)
Lemma child_nothing root searchpath p :
  (forall a,
      ~ resolved_match k isRecursive searchpath root filename ignoreCase a) ->
  0 <= write_ret k p 0 ->
  exists s',
    child k root searchpath filename isRecursive ignoreCase (fresh p)
    = Exited EXIT_SUCCESS s'
    /\ pipe_out s' = [notfound_line p filename searchpath].
Proof.
  intros Hnone Hok.
  destruct (search_nothing root searchpath (fresh p) Hnone)
    as (s1 & E & Hp & Ho).
  rewrite child_eq, E, Hp, Ho. cbn [fresh pid pipe_out List.length].
  destruct (write_ret k p 0 <? 0) eqn:Hw; [apply Z.ltb_lt in Hw; lia |].
  eexists. split; [reflexivity |].
  cbn [with_pipe pipe_out]. rewrite Ho. reflexivity.
Qed.

(** A child whose writes are all accepted ends with [EXIT_SUCCESS]. *)
Lemma child_exits_successfully root searchpath p :
  (forall n, 0 <= write_ret k p n) ->
  exists s',
    child k root searchpath filename isRecursive ignoreCase (fresh p)
    = Exited EXIT_SUCCESS s'.
Proof.
  intros Hok. rewrite child_eq.
  destruct (search_returns root searchpath (fresh p) Hok) as (b & s1 & E).
  destruct (search_adds_matches root searchpath (fresh p))
    as (paths & [Hp _] & _).
  rewrite E in *. cbn [final fresh pid] in Hp. rewrite Hp.
  destruct b; [eauto |].
  destruct (_ <? 0) eqn:Hw; [| eauto].
  apply Z.ltb_lt in Hw. specialize (Hok (List.length (pipe_out s1))). lia.
Qed.

(** *** The directory's own regular files are always tested *)

Lemma loop_keeps_pipe path ents isFound s b s' :
  loop path ents isFound s = Returned b s' ->
  pid s' = pid s /\ exists lines, pipe_out s' = pipe_out s ++ lines.
Proof.
  intros E.
  destruct (loop_adds_matches ents) with (path := path) (isFound := isFound)
    (s := s) as (paths & [Hp Ho] & _).
  { apply Forall_forall. intros ? _. apply search_adds_matches. }
  rewrite E in *. cbn [final] in *. eauto.
Qed.

(** Every regular entry of the directory itself that matches and
    resolves has its record in the pipe when the loop returns: neither
    [isFound] nor the recursion flag stands in its way. *)
Lemma loop_reports_own_files path ents :
  forall isFound s b s',
    loop path ents isFound s = Returned b s' ->
    forall fullpath name a,
      In (fullpath, name) (files_in false path (Dir ents)) ->
      isEqualString name filename ignoreCase = true ->
      realpath k fullpath = Some a ->
      In (found_line (pid s) filename a) (pipe_out s').
Proof.
  induction ents as [| [ent sub] rest IH];
    intros isFound s b s' E fullpath name a Hin Hm Hr.
  - destruct Hin.
  - rewrite loop_cons in E. cbv zeta in E.
    cbn [files_in flat_map fst snd] in Hin.
    apply in_app_or in Hin as [Hhere | Hrest].
    + destruct (pseudo (d_name ent)); [destruct Hhere |].
      destruct (d_type ent =? DT_DIR); [destruct Hhere |].
      destruct (d_type ent =? DT_REG); [| destruct Hhere].
      destruct Hhere as [[= <- <-] | []].
      cbn [andb append] in E, Hr. rewrite Hm, Hr in E.
      destruct (_ <? 0); [discriminate |].
      apply loop_keeps_pipe in E as (_ & lines & ->).
      cbn [with_pipe pipe_out]. apply in_or_app. left.
      apply in_or_app. right. now left.
    + assert (Hgo : forall isFound' s1,
                 pid s1 = pid s ->
                 loop path rest isFound' s1 = Returned b s' ->
                 In (found_line (pid s) filename a) (pipe_out s')).
      { intros isFound' s1 Hp E1. rewrite <- Hp.
        eapply IH; eauto. }
      destruct (pseudo (d_name ent)); [now apply (Hgo isFound s) |].
      destruct ((d_type ent =? DT_DIR) && isRecursive).
      { destruct isFound; [now apply (Hgo true s) |].
        destruct (search_adds_matches sub (path ++ "/" ++ d_name ent)%string s)
          as (paths & [Hp _] & _).
        destruct (search sub _ s) as [b1 s1 | st s1]; [| discriminate].
        now apply (Hgo b1 s1). }
      destruct ((d_type ent =? DT_REG)
                && isEqualString (d_name ent) filename ignoreCase);
        [| now apply (Hgo isFound s)].
      destruct (realpath k (path ++ "/" ++ d_name ent)%string) as [a' |];
        [| now apply (Hgo isFound s)].
      destruct (_ <? 0); [discriminate |].
      now apply (Hgo true (with_pipe s (found_line (pid s) filename a'))).
Qed.

Lemma search_reports_own_files dir path s b s' :
  search dir path s = Returned b s' ->
  forall fullpath name a,
    In (fullpath, name) (files_in false path dir) ->
    isEqualString name filename ignoreCase = true ->
    realpath k fullpath = Some a ->
    In (found_line (pid s) filename a) (pipe_out s').
Proof.
  destruct dir as [errno | ents]; intros E fullpath name a Hin.
  - destruct Hin.
  - rewrite searchForFile_Dir in E.
    apply (loop_reports_own_files _ _ _ _ _ _ E _ _ _ Hin).
Qed.

(** *** A match in scope makes the search return true *)

Lemma loop_true_stays path ents s b s' :
  loop path ents true s = Returned b s' -> b = true.
Proof.
  intros E.
  destruct (loop_adds_matches ents) with (path := path) (isFound := true)
    (s := s) as (paths & _ & _ & Hb).
  { apply Forall_forall. intros ? _. apply search_adds_matches. }
  apply (Hb _ _ E).
Qed.

Lemma loop_finds_if_any ents :
  Forall (fun p => finds_if_any (snd p)) ents ->
  forall path isFound s b s' a,
    loop path ents isFound s = Returned b s' ->
    resolved_match k isRecursive path (Dir ents) filename ignoreCase a ->
    b = true.
Proof.
  induction 1 as [| [ent sub] rest Hsub _ IH];
    intros path isFound s b s' a E (fp & n & Hin & Hm & Hr).
  - destruct Hin.
  - destruct isFound; [now apply loop_true_stays in E |].
    rewrite loop_cons in E. cbv zeta in E.
    cbn [files_in flat_map fst snd] in Hin.
    assert (Hrest : forall isFound' s1,
               loop path rest isFound' s1 = Returned b s' ->
               In (fp, n) (files_in isRecursive path (Dir rest)) ->
               b = true).
    { intros isFound' s1 E1 Hin1. apply (IH _ _ _ _ _ a E1).
      exists fp, n. exact (conj Hin1 (conj Hm Hr)). }
    apply in_app_or in Hin as [Hhere | Hin]; [| revert Hin].
    2:{ destruct (pseudo (d_name ent)); [exact (Hrest _ _ E) |].
        destruct ((d_type ent =? DT_DIR) && isRecursive).
        { destruct (search sub _ s); [exact (Hrest _ _ E) | discriminate]. }
        destruct ((d_type ent =? DT_REG) && _); [| exact (Hrest _ _ E)].
        destruct (realpath k _); [| exact (Hrest _ _ E)].
        destruct (_ <? 0); [discriminate | exact (Hrest _ _ E)]. }
    destruct (pseudo (d_name ent)); [destruct Hhere |].
    destruct (d_type ent =? DT_DIR) eqn:Hd.
    + destruct (sumbool_of_bool isRecursive) as [Hrec | Hrec];
        rewrite Hrec in Hhere at 1; [| destruct Hhere].
      rewrite andb_true_l in E. rewrite Hrec in E at 1.
      destruct (search sub _ s) as [b1 s1 |] eqn:E1; [| discriminate].
      assert (b1 = true) as ->.
      { apply (Hsub _ _ _ _ a E1).
        exists fp, n. exact (conj Hhere (conj Hm Hr)). }
      now apply loop_true_stays in E.
    + cbn [andb] in E.
      destruct (d_type ent =? DT_REG); [| destruct Hhere].
      destruct Hhere as [[= <- <-] | []].
      cbn [andb append] in E, Hr. rewrite Hm, Hr in E.
      destruct (_ <? 0); [discriminate |].
      now apply loop_true_stays in E.
Qed.

(** When the search returns and some matching regular file of its scope
    resolves, it returns true. *)
Lemma search_finds_if_any dir : finds_if_any dir.
Proof.
  induction dir as [errno | ents IH] using dirtree_ind';
    intros path s b s' a E Ha.
  - destruct Ha as (fp & n & [] & _).
  - rewrite searchForFile_Dir in E.
    eapply loop_finds_if_any; eauto.
Qed.

End Search.

(** *** Records are told apart by their path *)

Lemma append_inj_l (s a b : string) : (s ++ a = s ++ b)%string -> a = b.
Proof.
  induction s as [| c s IH]; cbn; [trivial |].
  intros [= H]. now apply IH.
Qed.

Lemma append_nl_inj (a b : string) : (a ++ nl = b ++ nl)%string -> a = b.
Proof.
  revert b. induction a as [| c a IH]; intros [| d b]; cbn; trivial.
  - intros [= _ H]. destruct b; discriminate.
  - intros [= _ H]. destruct a; discriminate.
  - intros [= -> H]. f_equal. now apply IH.
Qed.

Lemma found_line_inj p filename a b :
  found_line p filename a = found_line p filename b -> a = b.
Proof.
  unfold found_line. intros H.
  do 4 apply append_inj_l in H.
  now apply append_nl_inj.
Qed.

(** [resolved_match] is membership in [resolved_in_scope]. *)
Lemma resolved_match_iff k recursive path dir filename ignoreCase a :
  resolved_match k recursive path dir filename ignoreCase a
  <-> In a (resolved_in_scope k recursive path dir filename ignoreCase).
Proof.
  unfold resolved_match, resolved_in_scope, matches_in_scope. split.
  - intros (fp & n & Hin & Hm & Hr). apply in_flat_map.
    exists (fp, n). split.
    + apply filter_In. now split.
    + cbn. rewrite Hr. now left.
  - intros H. apply in_flat_map in H as ([fp n] & Hf & Ha).
    apply filter_In in Hf as [Hin Hm]. cbn in Ha, Hm.
    exists fp, n. repeat split; trivial.
    destruct (realpath k fp) as [a' |]; [| contradiction].
    destruct Ha as [-> | []]. reflexivity.
Qed.

(* ------------------------------------------------------------------ *)
(** *** No match in scope *)

(** One task: when no regular file of the traversal scope (the root's
    own entries, or the whole subtree when recursive) matches the name
    under the case policy, the task's output is exactly one "File not
    found" record: not zero, not more.  The task's one [write] is taken
    to be accepted by the pipe. *)
Lemma task_no_match_exactly_one_notfound
    (k : kernel) (root : dirtree) (searchpath filename : string)
    (isRecursive ignoreCase : bool) (p : Z) :
  matches_in_scope isRecursive searchpath root filename ignoreCase = [] ->
  0 <= write_ret k p 0 ->
  exists s',
    child k root searchpath filename isRecursive ignoreCase (fresh p)
    = Exited EXIT_SUCCESS s'
    /\ pipe_out s' = [notfound_line p filename searchpath].
Proof.
  intros Hnone Hok. apply child_nothing; [| exact Hok].
  intros a Ha. apply resolved_match_iff in Ha.
  unfold resolved_in_scope in Ha. rewrite Hnone in Ha. exact Ha.
Qed.

(* ------------------------------------------------------------------ *)
(** *** Matches whose path does not resolve *)

(** C7. A matching regular file whose absolute path cannot be resolved is
    dropped silently: the loop goes on with the remaining entries in the
    same process state (no record written, nothing on stderr, no exit)
    and with [isFound] as it was; and a task all of whose matches fail to
    resolve still reports "File not found". *)
Theorem C7_unresolved_match_is_dropped (k : kernel) :
  (forall path filename isRecursive ignoreCase ent sub rest isFound s,
      pseudo (d_name ent) = false ->
      d_type ent = DT_REG ->
      isEqualString (d_name ent) filename ignoreCase = true ->
      realpath k (path ++ "/" ++ d_name ent)%string = None ->
      readdir_loop k path filename isRecursive ignoreCase
        ((ent, sub) :: rest) isFound s
      = readdir_loop k path filename isRecursive ignoreCase rest isFound s)
  /\ (forall root searchpath filename isRecursive ignoreCase p,
         resolved_in_scope k isRecursive searchpath root filename ignoreCase
         = [] ->
         0 <= write_ret k p 0 ->
         exists s',
           child k root searchpath filename isRecursive ignoreCase (fresh p)
           = Exited EXIT_SUCCESS s'
           /\ pipe_out s' = [notfound_line p filename searchpath]).
Proof.
  split.
  - intros path filename isRecursive ignoreCase ent sub rest isFound s
      Hps Hreg Hm Hr.
    rewrite loop_cons. cbv zeta. rewrite Hps, Hreg, Hm, Hr. reflexivity.
  - intros root searchpath filename isRecursive ignoreCase p Hnone Hok.
    apply child_nothing; [| exact Hok].
    intros a Ha. apply resolved_match_iff in Ha. rewrite Hnone in Ha.
    exact Ha.
Qed.

Lemma C7_witness :
  (readdir_loop (unresolving_kernel "/tmp/t/a.txt") "/tmp/t" "a.txt" true false
     [file "a.txt"; subdir "sub" [file "a.txt"]] false (fresh 100)
   = readdir_loop (unresolving_kernel "/tmp/t/a.txt") "/tmp/t" "a.txt" true false
       [subdir "sub" [file "a.txt"]] false (fresh 100))
  /\ (exists s',
         child (unresolving_kernel "/tmp/t/a.txt")
           (Dir [file "a.txt"; file "b.txt"]) "/tmp/t" "a.txt" false false
           (fresh 100)
         = Exited EXIT_SUCCESS s'
         /\ pipe_out s' = [notfound_line 100 "a.txt" "/tmp/t"]).
Proof.
  split.
  - apply (proj1 (C7_unresolved_match_is_dropped
                    (unresolving_kernel "/tmp/t/a.txt"))); reflexivity.
  - apply (proj2 (C7_unresolved_match_is_dropped
                    (unresolving_kernel "/tmp/t/a.txt")));
      [reflexivity | cbn; lia].
Defined.

(* ------------------------------------------------------------------ *)
(** *** Directories that cannot be opened *)

(** C6. A directory that cannot be opened is a local failure: the call
    reports it on stderr, writes nothing to the pipe and returns false;
    the loop of the directory above goes on with the remaining entries,
    [isFound] still false and the pipe untouched; and when the directory
    is the task's own root, the task reports "File not found". *)
Theorem C6_open_failure_is_local (k : kernel) :
  (forall filename isRecursive ignoreCase errno path s,
      exists s',
        searchForFile k (NoDir errno) path filename isRecursive ignoreCase s
        = Returned false s'
        /\ pipe_out s' = pipe_out s
        /\ err_out s' = err_out s ++ [Perror (open_error_message path errno)])
  /\ (forall path filename ignoreCase ent errno rest s,
         pseudo (d_name ent) = false ->
         d_type ent = DT_DIR ->
         exists s1,
           readdir_loop k path filename true ignoreCase
             ((ent, NoDir errno) :: rest) false s
           = readdir_loop k path filename true ignoreCase rest false s1
           /\ pid s1 = pid s
           /\ pipe_out s1 = pipe_out s
           /\ err_out s1
              = err_out s
                ++ [Perror (open_error_message
                              (path ++ "/" ++ d_name ent)%string errno)])
  /\ (forall filename isRecursive ignoreCase errno searchpath p,
         0 <= write_ret k p 0 ->
         exists s',
           child k (NoDir errno) searchpath filename isRecursive ignoreCase
             (fresh p)
           = Exited EXIT_SUCCESS s'
           /\ pipe_out s' = [notfound_line p filename searchpath]
           /\ err_out s' = [Perror (open_error_message searchpath errno)]).
Proof.
  split; [| split].
  - intros. rewrite searchForFile_NoDir. eexists. split; [reflexivity |].
    split; reflexivity.
  - intros path filename ignoreCase ent errno rest s Hps Hdir.
    rewrite loop_cons. cbv zeta. rewrite Hps, Hdir. cbn [Z.eqb andb].
    rewrite Z.eqb_refl. cbn [andb].
    rewrite searchForFile_NoDir. eexists. split; [reflexivity |].
    repeat split.
  - intros filename isRecursive ignoreCase errno searchpath p Hok.
    rewrite child_eq, searchForFile_NoDir.
    cbn [with_err with_opened fresh pid pipe_out List.length].
    destruct (write_ret k p 0 <? 0) eqn:Hw; [apply Z.ltb_lt in Hw; lia |].
    eexists. split; [reflexivity |]. split; reflexivity.
Qed.

Lemma C6_witness :
  (exists s1,
      readdir_loop plain_kernel "/tmp/t" "a.txt" true false
        [(Dirent "locked" DT_DIR, NoDir EACCES); file "a.txt"] false (fresh 100)
      = readdir_loop plain_kernel "/tmp/t" "a.txt" true false
          [file "a.txt"] false s1
      /\ pid s1 = 100
      /\ pipe_out s1 = []
      /\ err_out s1 = [Perror "Access denied to directory: /tmp/t/locked"])
  /\ (exists s',
         child plain_kernel (NoDir ENOENT) "/nowhere" "a.txt" true false
           (fresh 100)
         = Exited EXIT_SUCCESS s'
         /\ pipe_out s' = [notfound_line 100 "a.txt" "/nowhere"]
         /\ err_out s' = [Perror "Failed to open directory: /nowhere"]).
Proof.
  split.
  - apply (proj1 (proj2 (C6_open_failure_is_local plain_kernel))
             "/tmp/t" "a.txt" false (Dirent "locked" DT_DIR) EACCES
             [file "a.txt"] (fresh 100)); reflexivity.
  - apply (proj2 (proj2 (C6_open_failure_is_local plain_kernel))
             "a.txt" true false ENOENT "/nowhere" 100).
    cbn; lia.
Defined.

(* ------------------------------------------------------------------ *)
(** *** Found records and the "not found" record *)

(** A task ends with [exit(EXIT_SUCCESS)] only after its search
    returned; it then added the "File not found" record exactly when the
    search returned false. *)
Lemma child_success_cases
    (k : kernel) (root : dirtree) (searchpath filename : string)
    (isRecursive ignoreCase : bool) (s s' : proc) :
  child k root searchpath filename isRecursive ignoreCase s
  = Exited EXIT_SUCCESS s' ->
  exists b s1,
    searchForFile k root searchpath filename isRecursive ignoreCase s
    = Returned b s1
    /\ s' = if b then s1
            else with_pipe s1 (notfound_line (pid s1) filename searchpath).
Proof.
  rewrite child_eq.
  destruct (searchForFile k root searchpath filename isRecursive ignoreCase s)
    as [b s1 | st s1] eqn:E.
  - intros Hc. exists b, s1. split; [reflexivity |].
    destruct b; [now injection Hc |].
    destruct (_ <? 0); [discriminate | now injection Hc].
  - intros [= -> ->].
    destruct (search_exits_at_write k filename isRecursive ignoreCase root
                searchpath s _ _ E) as (Hst & _).
    discriminate.
Qed.

(** The output of a task that ends with [exit(EXIT_SUCCESS)] is not
    empty, and every record in it is attributable to the task. *)
Lemma child_success_output
    (k : kernel) (root : dirtree) (searchpath filename : string)
    (isRecursive ignoreCase : bool) (p : Z) (s' : proc) :
  child k root searchpath filename isRecursive ignoreCase (fresh p)
  = Exited EXIT_SUCCESS s' ->
  pipe_out s' <> []
  /\ Forall (line_of_task p filename searchpath) (pipe_out s').
Proof.
  intros Hc.
  destruct (child_success_cases _ _ _ _ _ _ _ _ Hc) as (b & s1 & E & ->).
  destruct (search_adds_matches k filename isRecursive ignoreCase root
              searchpath (fresh p)) as (paths & [Hp Ho] & _ & Hb).
  rewrite E in Hp, Ho. cbn [final fresh pid pipe_out app] in Hp, Ho.
  specialize (Hb _ _ E).
  assert (Hfound : Forall (line_of_task p filename searchpath) (pipe_out s1)).
  { rewrite Ho. apply Forall_forall. intros line Hin.
    apply in_map_iff in Hin as (a & <- & _). right. now exists a. }
  destruct b.
  - split; [| exact Hfound].
    rewrite Ho. destruct paths; discriminate.
  - cbn [with_pipe pipe_out]. split; [now destruct (pipe_out s1) |].
    apply Forall_app. split; [exact Hfound |].
    constructor; [| constructor]. left. now rewrite Hp.
Qed.

(** C9. A task that ends with [exit(EXIT_SUCCESS)] has written the match
    records of some list [paths] and then the "File not found" record
    exactly when [paths] is empty, never both kinds; and [searchForFile]
    returned true exactly when [paths] is non-empty. *)
Theorem C9_notfound_iff_no_found
    (k : kernel) (root : dirtree) (searchpath filename : string)
    (isRecursive ignoreCase : bool) (p : Z) (s' : proc) :
  child k root searchpath filename isRecursive ignoreCase (fresh p)
  = Exited EXIT_SUCCESS s' ->
  exists paths b s1,
    searchForFile k root searchpath filename isRecursive ignoreCase (fresh p)
    = Returned b s1
    /\ pipe_out s1 = map (found_line p filename) paths
    /\ b = nonempty paths
    /\ pipe_out s'
       = map (found_line p filename) paths
         ++ (if nonempty paths then []
             else [notfound_line p filename searchpath]).
Proof.
  intros Hc.
  destruct (child_success_cases _ _ _ _ _ _ _ _ Hc) as (b & s1 & E & ->).
  destruct (search_adds_matches k filename isRecursive ignoreCase root
              searchpath (fresh p)) as (paths & [Hp Ho] & _ & Hb).
  rewrite E in Hp, Ho. cbn [final fresh pid pipe_out app] in Hp, Ho.
  specialize (Hb _ _ E).
  exists paths, b, s1.
  split; [exact E |]. split; [exact Ho |]. split; [exact Hb |].
  rewrite <- Hb. destruct b.
  - now rewrite app_nil_r.
  - cbn [with_pipe pipe_out]. now rewrite Ho, Hp.
Qed.

Lemma C9_witness :
  exists paths b s1,
    searchForFile plain_kernel
      (Dir [subdir "sub" [file "a.txt"]; file "a.txt"])
      "/tmp/t" "a.txt" true false (fresh 100)
    = Returned b s1
    /\ pipe_out s1 = map (found_line 100 "a.txt") paths
    /\ b = nonempty paths
    /\ pipe_out
         (final (child plain_kernel
                   (Dir [subdir "sub" [file "a.txt"]; file "a.txt"])
                   "/tmp/t" "a.txt" true false (fresh 100)))
       = map (found_line 100 "a.txt") paths
         ++ (if nonempty paths then []
             else [notfound_line 100 "a.txt" "/tmp/t"]).
Proof.
  apply C9_notfound_iff_no_found. reflexivity.
Defined.

(* ------------------------------------------------------------------ *)
(** *** The parent *)

(** C8. When fewer than two arguments are left after the options (no
    search root, or a root and no file name), the run ends with a message
    on stderr and [EXIT_FAILURE] before anything else happens: no pipe,
    no child (so no directory is opened), nothing printed. *)
Theorem C8_usage_error_before_any_search
    (k : kernel) (argv : list string) (opts : list ascii) (optind : Z)
    (root : dirtree) :
  Z.of_nat (List.length argv) - optind < 2 ->
  let r := main k argv opts optind root in
  status r = EXIT_FAILURE
  /\ (exists text, diagnostics r = [Cerr text])
  /\ pipe_made r = false
  /\ children r = []
  /\ drained r = false
  /\ forall out, prints r out -> out = [].
Proof.
  intros Hargs. unfold main.
  destruct (getopt_loop opts false false) as [[isRecursive ignoreCase] |].
  - replace (optind >=? Z.of_nat (List.length argv) - 1) with true
      by (symmetry; apply Z.geb_le; lia).
    cbn. repeat split; eauto.
  - cbn. repeat split; eauto.
Qed.

Lemma C8_witness :
  let r := main plain_kernel ["myfind"; "-R"; "/tmp/t"] ["R"%char] 2
             (Dir [file "a.txt"]) in
  status r = EXIT_FAILURE
  /\ (exists text, diagnostics r = [Cerr text])
  /\ pipe_made r = false
  /\ children r = []
  /\ drained r = false
  /\ forall out, prints r out -> out = [].
Proof.
  apply C8_usage_error_before_any_search. cbn. lia.
Defined.

(** The children of a run in which every [fork] succeeded: one per file
    name, in order, each the child branch started in a fresh process. *)
Lemma fork_loop_children k root searchpath isRecursive ignoreCase :
  forall filenames n cs,
    fork_loop k root searchpath isRecursive ignoreCase filenames n
    = (cs, true) ->
    forall j filename,
      nth_error filenames j = Some filename ->
      exists p,
        fork_ret k (n + j)%nat = Some p
        /\ nth_error cs j
           = Some (child k root searchpath filename isRecursive ignoreCase
                     (fresh p)).
Proof.
  induction filenames as [| f more IH]; intros n cs Hfl j filename Hj.
  - destruct j; discriminate.
  - cbn [fork_loop] in Hfl.
    destruct (fork_ret k n) as [p |] eqn:Hfork; [| discriminate].
    destruct (fork_loop k root searchpath isRecursive ignoreCase more (S n))
      as [cs' ok] eqn:Hmore.
    injection Hfl as <- ->.
    destruct j as [| j].
    + injection Hj as <-. exists p. rewrite Nat.add_0_r. now split.
    + cbn [nth_error] in *.
      destruct (IH (S n) cs' Hmore j filename Hj) as (q & Hq & Hc).
      exists q. split; [| exact Hc].
      now replace (n + S j)%nat with (S n + j)%nat by lia.
Qed.

(** Whatever the arrival order, every record of every writer arrives. *)
Lemma interleaved_In ws out :
  interleaved ws out ->
  forall w x, In w ws -> In x w -> In x out.
Proof.
  induction 1 as [ws Hall | before after x0 w0 out _ IH]; intros w x Hw Hx.
  - rewrite Forall_forall in Hall. rewrite (Hall w Hw) in Hx. destruct Hx.
  - apply in_app_or in Hw as [Hw | [<- | Hw]].
    + right. apply (IH w x); [| exact Hx]. apply in_or_app. now left.
    + destruct Hx as [-> | Hx]; [now left |].
      right. apply (IH w0 x); [| exact Hx]. apply in_or_app. right. now left.
    + right. apply (IH w x); [| exact Hx]. apply in_or_app. right. now right.
Qed.

(** C2. In a run that the parent completes, every requested file name
    has its own child; that child ends normally when the pipe accepts its
    writes; and a child that ends normally has written at least one
    record, all of its records are attributable to that file name (match
    records, or the one "File not found" record), and all of them are in
    what the parent prints, whatever the arrival order. *)
Theorem C2_every_filename_has_a_line
    (k : kernel) (argv : list string) (opts : list ascii) (optind : Z)
    (root : dirtree) (j : nat) (filename : string) :
  status (main k argv opts optind root) = EXIT_SUCCESS ->
  nth_error (skipn (Z.to_nat (optind + 1)) argv) j = Some filename ->
  exists p isRecursive ignoreCase,
    getopt_loop opts false false = Some (isRecursive, ignoreCase)
    /\ fork_ret k j = Some p
    /\ nth_error (children (main k argv opts optind root)) j
       = Some (child k root (nth (Z.to_nat optind) argv ""%string) filename
                 isRecursive ignoreCase (fresh p))
    /\ ((forall n, 0 <= write_ret k p n) ->
        exists s',
          child k root (nth (Z.to_nat optind) argv ""%string) filename
            isRecursive ignoreCase (fresh p)
          = Exited EXIT_SUCCESS s')
    /\ forall s',
        child k root (nth (Z.to_nat optind) argv ""%string) filename
          isRecursive ignoreCase (fresh p)
        = Exited EXIT_SUCCESS s' ->
        pipe_out s' <> []
        /\ Forall (line_of_task p filename (nth (Z.to_nat optind) argv ""%string))
             (pipe_out s')
        /\ forall out,
            prints (main k argv opts optind root) out ->
            incl (pipe_out s') out.
Proof.
  intros Hst Hj. unfold prints. revert Hst. unfold main.
  destruct (getopt_loop opts false false) as [[isRecursive ignoreCase] |];
    [| discriminate].
  destruct (optind >=? Z.of_nat (List.length argv) - 1); [discriminate |].
  destruct (pipe_ret k =? -1); [discriminate |].
  destruct (fork_loop k root (nth (Z.to_nat optind) argv ""%string)
              isRecursive ignoreCase
              (skipn (Z.to_nat (optind + 1)) argv) 0)
    as [cs [|]] eqn:Hfl; [| discriminate].
  intros _. cbn [children drained].
  destruct (fork_loop_children _ _ _ _ _ _ _ _ Hfl j filename Hj)
    as (p & Hfork & Hc).
  exists p, isRecursive, ignoreCase.
  split; [reflexivity |]. split; [exact Hfork |]. split; [exact Hc |].
  split; [apply child_exits_successfully |].
  intros s' Hs'.
  destruct (child_success_output _ _ _ _ _ _ _ _ Hs') as (Hne & Hall).
  split; [exact Hne |]. split; [exact Hall |].
  intros out Hout line Hline.
  apply (interleaved_In _ _ Hout (pipe_out s') line); [| exact Hline].
  apply nth_error_In in Hc.
  apply in_map_iff. eexists. split; [| exact Hc].
  rewrite Hs'. reflexivity.
Qed.

Lemma C2_witness :
  exists p isRecursive ignoreCase,
    getopt_loop ["R"%char] false false = Some (isRecursive, ignoreCase)
    /\ fork_ret plain_kernel 1 = Some p
    /\ nth_error
         (children
            (main plain_kernel ["myfind"; "-R"; "/tmp/t"; "a.txt"; "b.txt"]
               ["R"%char] 2 (Dir [subdir "sub" [file "a.txt"]])))
         1
       = Some (child plain_kernel (Dir [subdir "sub" [file "a.txt"]])
                 "/tmp/t" "b.txt" isRecursive ignoreCase (fresh p))
    /\ ((forall n, 0 <= write_ret plain_kernel p n) ->
        exists s',
          child plain_kernel (Dir [subdir "sub" [file "a.txt"]])
            "/tmp/t" "b.txt" isRecursive ignoreCase (fresh p)
          = Exited EXIT_SUCCESS s')
    /\ forall s',
        child plain_kernel (Dir [subdir "sub" [file "a.txt"]])
          "/tmp/t" "b.txt" isRecursive ignoreCase (fresh p)
        = Exited EXIT_SUCCESS s' ->
        pipe_out s' <> []
        /\ Forall (line_of_task p "b.txt" "/tmp/t") (pipe_out s')
        /\ forall out,
            prints
              (main plain_kernel ["myfind"; "-R"; "/tmp/t"; "a.txt"; "b.txt"]
                 ["R"%char] 2 (Dir [subdir "sub" [file "a.txt"]]))
              out ->
            incl (pipe_out s') out.
Proof.
  apply (C2_every_filename_has_a_line plain_kernel
           ["myfind"; "-R"; "/tmp/t"; "a.txt"; "b.txt"] ["R"%char] 2
           (Dir [subdir "sub" [file "a.txt"]]) 1 "b.txt");
    reflexivity.
Defined.

(* ------------------------------------------------------------------ *)
(** *** Shallow and recursive search *)

(** C10. Over the same tree, file name, case policy and kernel, when both
    searches return, every path reported by the shallow search is also
    reported by the recursive one. *)
Theorem C10_shallow_subset_of_recursive
    (k : kernel) (root : dirtree) (searchpath filename : string)
    (ignoreCase : bool) (p : Z) (b1 b2 : bool) (s1 s2 : proc) :
  searchForFile k root searchpath filename false ignoreCase (fresh p)
  = Returned b1 s1 ->
  searchForFile k root searchpath filename true ignoreCase (fresh p)
  = Returned b2 s2 ->
  exists paths1 paths2,
    pipe_out s1 = map (found_line p filename) paths1
    /\ pipe_out s2 = map (found_line p filename) paths2
    /\ incl paths1 paths2.
Proof.
  intros E1 E2.
  destruct (search_adds_matches k filename false ignoreCase root searchpath
              (fresh p)) as (paths1 & [_ Ho1] & Hall & _).
  destruct (search_adds_matches k filename true ignoreCase root searchpath
              (fresh p)) as (paths2 & [_ Ho2] & _).
  rewrite E1 in Ho1. rewrite E2 in Ho2. cbn in Ho1, Ho2.
  exists paths1, paths2. split; [exact Ho1 |]. split; [exact Ho2 |].
  intros a Ha.
  rewrite Forall_forall in Hall.
  destruct (Hall a Ha) as (fullpath & name & Hin & Hm & Hr).
  pose proof (search_reports_own_files k filename true ignoreCase root
                searchpath (fresh p) b2 s2 E2 fullpath name a Hin Hm Hr)
    as Hline.
  cbn [fresh pid] in Hline. rewrite Ho2 in Hline.
  apply in_map_iff in Hline as (a' & Heq & Ha').
  apply found_line_inj in Heq. now subst.
Qed.

Lemma C10_witness :
  exists paths1 paths2,
    pipe_out
      (final (searchForFile plain_kernel
                (Dir [subdir "sub" [file "a.txt"]; file "a.txt"])
                "/tmp/t" "a.txt" false false (fresh 100)))
    = map (found_line 100 "a.txt") paths1
    /\ pipe_out
         (final (searchForFile plain_kernel
                   (Dir [subdir "sub" [file "a.txt"]; file "a.txt"])
                   "/tmp/t" "a.txt" true false (fresh 100)))
       = map (found_line 100 "a.txt") paths2
    /\ incl paths1 paths2.
Proof.
  apply (C10_shallow_subset_of_recursive plain_kernel
           (Dir [subdir "sub" [file "a.txt"]; file "a.txt"])
           "/tmp/t" "a.txt" false 100 true true);
    reflexivity.
Defined.

(* ------------------------------------------------------------------ *)
(** *** Matching of names *)

Lemma tolower_zero (c : Z) : 0 <= c -> (tolower c = 0 <-> c = 0).
Proof.
  unfold tolower. intros Hc.
  destruct ((65 <=? c) && (c <=? 90)) eqn:E; [| tauto].
  apply andb_true_iff in E as [H1 H2].
  apply Z.leb_le in H1. lia.
Qed.

Lemma byte_nonneg (a : ascii) : 0 <= Z.of_nat (nat_of_ascii a).
Proof. lia. Qed.

Lemma casefold_cons (a : ascii) (r : string) :
  casefold (String a r)
  = if Z.of_nat (nat_of_ascii a) =? 0 then []
    else tolower (Z.of_nat (nat_of_ascii a)) :: casefold r.
Proof.
  unfold casefold. cbn [c_str].
  destruct (Z.of_nat (nat_of_ascii a) =? 0); reflexivity.
Qed.

(** [strcasecmp] answers 0 exactly on strings with the same case fold. *)
Lemma strcasecmp_zero_iff (s1 s2 : string) :
  strcasecmp s1 s2 = 0 <-> casefold s1 = casefold s2.
Proof.
  revert s2. induction s1 as [| a r1 IH]; intros s2.
  - cbn [strcasecmp]. destruct s2 as [| a2 r2].
    + cbn. tauto.
    + cbn [byte_at_head]. rewrite casefold_cons.
      pose proof (tolower_zero _ (byte_nonneg a2)) as Hz.
      destruct (Z.of_nat (nat_of_ascii a2) =? 0) eqn:E2.
      * apply Z.eqb_eq in E2. cbn. intuition lia.
      * apply Z.eqb_neq in E2. cbn. split; [intuition lia | discriminate].
  - cbn [strcasecmp]. cbv zeta. rewrite casefold_cons.
    pose proof (tolower_zero _ (byte_nonneg a)) as Hz1.
    destruct s2 as [| a2 r2].
    + cbn [byte_at_head tail]. change (tolower 0) with 0.
      rewrite Z.sub_0_r.
      destruct (tolower (Z.of_nat (nat_of_ascii a)) =? 0) eqn:E.
      * apply Z.eqb_eq in E. apply Hz1 in E. rewrite E. cbn. tauto.
      * apply Z.eqb_neq in E.
        destruct (Z.of_nat (nat_of_ascii a) =? 0) eqn:E1.
        -- apply Z.eqb_eq in E1. intuition lia.
        -- cbn. split; [intuition lia | discriminate].
    + cbn [byte_at_head tail]. rewrite casefold_cons.
      pose proof (tolower_zero _ (byte_nonneg a2)) as Hz2.
      destruct (tolower (Z.of_nat (nat_of_ascii a))
                - tolower (Z.of_nat (nat_of_ascii a2)) =? 0) eqn:E.
      * apply Z.eqb_eq in E.
        destruct (Z.of_nat (nat_of_ascii a) =? 0) eqn:E1.
        -- apply Z.eqb_eq in E1.
           assert (Z.of_nat (nat_of_ascii a2) = 0) as -> by intuition lia.
           cbn. tauto.
        -- apply Z.eqb_neq in E1.
           destruct (Z.of_nat (nat_of_ascii a2) =? 0) eqn:E2.
           ++ apply Z.eqb_eq in E2. intuition lia.
           ++ rewrite IH. split.
              ** intros ->. f_equal. lia.
              ** now intros [= _ H].
      * apply Z.eqb_neq in E.
        destruct (Z.eqb_spec (Z.of_nat (nat_of_ascii a)) 0) as [E1 | E1];
          destruct (Z.eqb_spec (Z.of_nat (nat_of_ascii a2)) 0) as [E2 | E2].
        -- rewrite E1, E2 in E. now destruct E.
        -- split; [intuition lia | discriminate].
        -- split; [intuition lia | discriminate].
        -- split; [intuition lia |]. intros [= H _]. lia.
Qed.

(** C4. Without the case flag two names match exactly when they are
    equal byte for byte; with it, exactly when their case folds in the
    "C" locale are equal.  So [Report.TXT] matches the query [report.txt]
    if and only if the flag is set, and a name equal to the query matches
    in both modes. *)
Theorem C4_name_matching :
  (forall name query, isEqualString name query false = true <-> name = query)
  /\ (forall name query,
         isEqualString name query true = true
         <-> casefold name = casefold query)
  /\ (forall ignoreCase,
         isEqualString "Report.TXT" "report.txt" ignoreCase = true
         <-> ignoreCase = true)
  /\ (forall name ignoreCase, isEqualString name name ignoreCase = true).
Proof.
  split; [| split; [| split]].
  - intros name query. cbn. apply String.eqb_eq.
  - intros name query. cbn. rewrite Z.eqb_eq. apply strcasecmp_zero_iff.
  - intros [|]; vm_compute; split; congruence.
  - intros name [|]; cbn.
    + apply Z.eqb_eq. now apply strcasecmp_zero_iff.
    + apply String.eqb_refl.
Qed.

(* ------------------------------------------------------------------ *)
(** *** Which directories are entered *)

(** Without the recursion flag only the directory itself is opened. *)
Lemma shallow_loop_opens_nothing k path filename ignoreCase ents :
  forall isFound s,
    opened (final (readdir_loop k path filename false ignoreCase ents isFound s))
    = opened s.
Proof.
  induction ents as [| [ent sub] rest IH]; intros isFound s; [reflexivity |].
  rewrite loop_cons. cbv zeta. rewrite andb_false_r.
  destruct (pseudo (d_name ent)); [apply IH |].
  destruct (_ && _); [| apply IH].
  destruct (realpath k _); [| apply IH].
  destruct (_ <? 0); [reflexivity |].
  rewrite IH. reflexivity.
Qed.

Lemma shallow_search_opens_root_only k dir path filename ignoreCase s :
  opened (final (searchForFile k dir path filename false ignoreCase s))
  = opened s ++ [path].
Proof.
  destruct dir as [errno | ents].
  - rewrite searchForFile_NoDir. reflexivity.
  - rewrite searchForFile_Dir, shallow_loop_opens_nothing. reflexivity.
Qed.

(** With the recursion flag, a directory met when [isFound] is already
    true is passed over: the right operand of [isFound || ...] is not
    evaluated, so the directory is not opened and nothing below it is
    looked at. *)
Lemma loop_passes_over_directory_once_found
    k path filename ignoreCase ent sub rest s :
  pseudo (d_name ent) = false ->
  d_type ent = DT_DIR ->
  readdir_loop k path filename true ignoreCase ((ent, sub) :: rest) true s
  = readdir_loop k path filename true ignoreCase rest true s.
Proof.
  intros Hps Hdir. rewrite loop_cons. cbv zeta. rewrite Hps, Hdir.
  reflexivity.
Qed.

(** ... whereas a directory met when [isFound] is still false is
    entered. *)
Lemma loop_enters_directory_until_found
    k path filename ignoreCase ent sub rest s :
  pseudo (d_name ent) = false ->
  d_type ent = DT_DIR ->
  readdir_loop k path filename true ignoreCase ((ent, sub) :: rest) false s
  = match searchForFile k sub (path ++ "/" ++ d_name ent)%string filename
            true ignoreCase s with
    | Returned b s' => readdir_loop k path filename true ignoreCase rest b s'
    | Exited st s' => Exited st s'
    end.
Proof.
  intros Hps Hdir. rewrite loop_cons. cbv zeta. rewrite Hps, Hdir.
  reflexivity.
Qed.

(** C1. The recursive search of a root that holds [a.txt] and
    [sub/a.txt], with the kernel accepting everything.  When [readdir]
    yields [a.txt] before [sub], the search writes one record and never
    opens [sub]; when it yields [sub] first, it writes two. *)
Theorem C1_recursive_search_depends_on_entry_order :
  searchForFile plain_kernel
    (Dir [file "a.txt"; subdir "sub" [file "a.txt"]])
    "/tmp/t" "a.txt" true false (fresh 100)
  = Returned true
      {| pid := 100;
         pipe_out := [found_line 100 "a.txt" "/tmp/t/a.txt"];
         err_out := [];
         opened := ["/tmp/t"%string] |}
  /\ searchForFile plain_kernel
       (Dir [subdir "sub" [file "a.txt"]; file "a.txt"])
       "/tmp/t" "a.txt" true false (fresh 100)
     = Returned true
         {| pid := 100;
            pipe_out := [found_line 100 "a.txt" "/tmp/t/sub/a.txt";
                         found_line 100 "a.txt" "/tmp/t/a.txt"];
            err_out := [];
            opened := ["/tmp/t"%string; "/tmp/t/sub"%string] |}.
Proof. split; reflexivity. Qed.

(** C5. A root with two sub-directories [d1] and [d2], each holding
    [a.txt], and no [a.txt] of its own.  Both files are in the recursive
    scope and none in the shallow one; the shallow task reports "File
    not found" and opens the root only; the recursive task reports
    [d1/a.txt], never opens [d2] and does not report [d2/a.txt]. *)
Theorem C5_second_directory_not_searched :
  let root := Dir [subdir "d1" [file "a.txt"]; subdir "d2" [file "a.txt"]] in
  matches_in_scope true "/tmp/t" root "a.txt" false
  = [("/tmp/t/d1/a.txt"%string, "a.txt"%string);
     ("/tmp/t/d2/a.txt"%string, "a.txt"%string)]
  /\ matches_in_scope false "/tmp/t" root "a.txt" false = []
  /\ child plain_kernel root "/tmp/t" "a.txt" false false (fresh 100)
     = Exited EXIT_SUCCESS
         {| pid := 100;
            pipe_out := [notfound_line 100 "a.txt" "/tmp/t"];
            err_out := [];
            opened := ["/tmp/t"%string] |}
  /\ child plain_kernel root "/tmp/t" "a.txt" true false (fresh 100)
     = Exited EXIT_SUCCESS
         {| pid := 100;
            pipe_out := [found_line 100 "a.txt" "/tmp/t/d1/a.txt"];
            err_out := [];
            opened := ["/tmp/t"%string; "/tmp/t/d1"%string] |}.
Proof. cbv zeta. repeat split; reflexivity. Qed.

(* ================================================================== *)
(** ** Further properties of the program *)
(* ================================================================== *)

(* ------------------------------------------------------------------ *)
(** *** [isEqualString] *)

Lemma isEqualString_fold (s1 s2 : string) :
  isEqualString s1 s2 true = true <-> casefold s1 = casefold s2.
Proof. cbn. rewrite Z.eqb_eq. apply strcasecmp_zero_iff. Qed.

Lemma bool_eq_of_iff (a b : bool) : (a = true <-> b = true) -> a = b.
Proof. destruct a, b; intuition congruence. Qed.

(** X1. In either mode [isEqualString] is symmetric and transitive, and
    two names that match case-sensitively also match case-insensitively:
    the case flag can only add matches. *)
Theorem X1_isEqualString_equivalence :
  (forall s1 s2 ignoreCase,
      isEqualString s1 s2 ignoreCase = isEqualString s2 s1 ignoreCase)
  /\ (forall s1 s2 s3 ignoreCase,
         isEqualString s1 s2 ignoreCase = true ->
         isEqualString s2 s3 ignoreCase = true ->
         isEqualString s1 s3 ignoreCase = true)
  /\ (forall s1 s2,
         isEqualString s1 s2 false = true ->
         isEqualString s1 s2 true = true).
Proof.
  split; [| split].
  - intros s1 s2 [|].
    + apply bool_eq_of_iff. rewrite !isEqualString_fold.
      split; congruence.
    + apply String.eqb_sym.
  - intros s1 s2 s3 [|].
    + rewrite !isEqualString_fold. congruence.
    + cbn. rewrite !String.eqb_eq. congruence.
  - intros s1 s2 H. cbn in H. apply String.eqb_eq in H as ->.
    apply isEqualString_fold. reflexivity.
Qed.

(* ------------------------------------------------------------------ *)
(** *** The two kinds of record *)

(** X2. A match record tells its path: for one task and file name,
    different resolved paths give different records; and the record of
    an absolute path is never the "File not found" record. *)
Theorem X2_records_are_unambiguous
    (p : Z) (filename searchpath : string) :
  (forall a b, found_line p filename a = found_line p filename b -> a = b)
  /\ (forall a,
         found_line p filename (String "/" a)
         <> notfound_line p filename searchpath).
Proof.
  split.
  - intros a b. apply found_line_inj.
  - intros a H. unfold found_line, notfound_line in H.
    do 3 apply append_inj_l in H. cbn in H. discriminate H.
Qed.

(* ------------------------------------------------------------------ *)
(** *** Option parsing *)

Lemma getopt_loop_closed_form (opts : list ascii) :
  forall isRecursive ignoreCase,
    getopt_loop opts isRecursive ignoreCase
    = if forallb known_option opts
      then Some (isRecursive || existsb (Ascii.eqb "R") opts,
                 ignoreCase || existsb (Ascii.eqb "i") opts)
      else None.
Proof.
  induction opts as [| opt more IH]; intros isRecursive ignoreCase.
  - cbn. now rewrite !orb_false_r.
  - cbn [getopt_loop forallb existsb]. unfold known_option at 1.
    rewrite (Ascii.eqb_sym "R" opt), (Ascii.eqb_sym "i" opt).
    destruct (Ascii.eqb_spec opt "R") as [-> | HR].
    + rewrite IH. cbn. destruct (forallb known_option more); [| reflexivity].
      now rewrite orb_true_r.
    + destruct (Ascii.eqb_spec opt "i") as [-> | Hi].
      * rewrite IH. cbn. destruct (forallb known_option more); [| reflexivity].
        now rewrite orb_true_r.
      * reflexivity.
Qed.

(** X3. The option loop accepts exactly the sequences made of [R] and
    [i]; the recursion flag is then set iff [R] occurs and the case flag
    iff [i] occurs, however often and in whatever order. *)
Theorem X3_flags_are_what_occurs (opts : list ascii) :
  getopt_loop opts false false
  = if forallb known_option opts
    then Some (existsb (Ascii.eqb "R") opts, existsb (Ascii.eqb "i") opts)
    else None.
Proof. apply getopt_loop_closed_form. Qed.

(* ------------------------------------------------------------------ *)
(** *** The parent: exit status and forks *)

Lemma first_fork_failure_bounds k :
  forall n from j,
    first_fork_failure k from n = Some j ->
    (from <= j < from + n)%nat /\ fork_ret k j = None.
Proof.
  induction n as [| n IH]; intros from j H; [discriminate |].
  cbn in H. destruct (fork_ret k from) eqn:E.
  - apply IH in H. split; [lia | tauto].
  - injection H as <-. split; [lia | exact E].
Qed.

Lemma first_fork_failure_none k :
  forall n from,
    first_fork_failure k from n = None <->
    forall j, (from <= j < from + n)%nat -> fork_ret k j <> None.
Proof.
  induction n as [| n IH]; intros from; cbn.
  - split; [intros _ j Hj; lia | trivial].
  - destruct (fork_ret k from) eqn:E.
    + rewrite IH. split; intros H j Hj.
      * destruct (Nat.eq_dec j from) as [-> | Hne]; [congruence |].
        apply H. lia.
      * apply H. lia.
    + split; [discriminate |]. intros H. destruct (H from); [lia | exact E].
Qed.

Lemma first_fork_failure_ext k k' :
  (forall n, fork_ret k n = fork_ret k' n) ->
  forall n from, first_fork_failure k from n = first_fork_failure k' from n.
Proof.
  intros Hext. induction n as [| n IH]; intros from; cbn; [reflexivity |].
  rewrite <- Hext. destruct (fork_ret k from); [apply IH | reflexivity].
Qed.

(** The [fork] loop stops at the first [fork] that fails: it reports
    success exactly when none fails, and has then forked one child per
    file name, else as many children as forks succeeded before. *)
Lemma fork_loop_spec k root searchpath isRecursive ignoreCase :
  forall filenames n,
    snd (fork_loop k root searchpath isRecursive ignoreCase filenames n)
    = match first_fork_failure k n (List.length filenames) with
      | None => true
      | Some _ => false
      end
    /\ List.length
         (fst (fork_loop k root searchpath isRecursive ignoreCase filenames n))
       = match first_fork_failure k n (List.length filenames) with
         | None => List.length filenames
         | Some j => (j - n)%nat
         end.
Proof.
  induction filenames as [| f more IH]; intros n; [now split |].
  cbn [fork_loop List.length first_fork_failure].
  destruct (fork_ret k n) as [p |].
  - specialize (IH (S n)).
    destruct (fork_loop k root searchpath isRecursive ignoreCase more (S n))
      as [cs ok].
    cbn [fst snd List.length] in *. destruct IH as [Hok Hlen].
    destruct (first_fork_failure k (S n) (List.length more)) as [j |] eqn:E.
    + split; [exact Hok |].
      apply first_fork_failure_bounds in E. lia.
    + split; [exact Hok | lia].
  - cbn. split; [reflexivity | lia].
Qed.

(** Every child the loop forked is the child branch for the file name
    of its position, started in a fresh process with the pid [fork] gave. *)
Lemma fork_loop_forked k root searchpath isRecursive ignoreCase :
  forall filenames n j c,
    nth_error
      (fst (fork_loop k root searchpath isRecursive ignoreCase filenames n)) j
    = Some c ->
    exists filename p,
      nth_error filenames j = Some filename
      /\ fork_ret k (n + j)%nat = Some p
      /\ c = child k root searchpath filename isRecursive ignoreCase (fresh p).
Proof.
  induction filenames as [| f more IH]; intros n j c Hc.
  - destruct j; discriminate.
  - cbn [fork_loop] in Hc.
    destruct (fork_ret k n) as [p |] eqn:Hfork; [| destruct j; discriminate].
    specialize (IH (S n)).
    destruct (fork_loop k root searchpath isRecursive ignoreCase more (S n))
      as [cs ok].
    cbn [fst] in *. destruct j as [| j].
    + injection Hc as <-. exists f, p. rewrite Nat.add_0_r. now repeat split.
    + destruct (IH j c Hc) as (filename & q & Hf & Hq & ->).
      exists filename, q. repeat split; trivial.
      now replace (n + S j)%nat with (S n + j)%nat by lia.
Qed.

(** X4. An option character other than [R] and [i] ends the run with the
    usage message and [EXIT_FAILURE] before anything else happens, also
    when a search root and file names are present: no pipe, no child,
    nothing printed. *)
Theorem X4_unknown_option_is_fatal
    (k : kernel) (argv : list string) (opts : list ascii) (optind : Z)
    (root : dirtree) :
  forallb known_option opts = false ->
  main k argv opts optind root
  = {| status := EXIT_FAILURE;
       diagnostics :=
         [Cerr ("Usage: " ++ nth 0 argv ""
                ++ " [-R] [-i] searchpath filename1 [filename2] …[filenameN]"
                ++ nl)%string];
       pipe_made := false; children := []; drained := false |}.
Proof.
  intros Hbad. unfold main.
  rewrite getopt_loop_closed_form, Hbad. reflexivity.
Qed.

Lemma X4_witness :
  main plain_kernel ["myfind"; "-x"; "/tmp/t"; "a.txt"] ["R"; "?"; "i"]%char 2
    (Dir [file "a.txt"])
  = {| status := EXIT_FAILURE;
       diagnostics :=
         [Cerr ("Usage: " ++ "myfind"
                ++ " [-R] [-i] searchpath filename1 [filename2] …[filenameN]"
                ++ nl)%string];
       pipe_made := false; children := []; drained := false |}.
Proof.
  apply (X4_unknown_option_is_fatal plain_kernel
           ["myfind"; "-x"; "/tmp/t"; "a.txt"] ["R"; "?"; "i"]%char 2).
  reflexivity.
Defined.

(** X5. The parent returns 0 exactly when the options are known, a root
    and at least one file name are left after them, [pipe] does not
    return -1 and no [fork] fails; in every other case its status is
    [EXIT_FAILURE]. *)
Theorem X5_parent_status
    (k : kernel) (argv : list string) (opts : list ascii) (optind : Z)
    (root : dirtree) :
  (status (main k argv opts optind root) = EXIT_SUCCESS
   <-> forallb known_option opts = true
       /\ optind < Z.of_nat (List.length argv) - 1
       /\ pipe_ret k <> -1
       /\ first_fork_failure k 0
            (List.length (skipn (Z.to_nat (optind + 1)) argv)) = None)
  /\ (status (main k argv opts optind root) = EXIT_SUCCESS
      \/ status (main k argv opts optind root) = EXIT_FAILURE).
Proof.
  unfold main. rewrite getopt_loop_closed_form.
  destruct (forallb known_option opts).
  2:{ cbn. split; [| now right].
      split; [discriminate | intros (H & _); discriminate]. }
  destruct (Z.geb_spec optind (Z.of_nat (List.length argv) - 1)) as [Hge | Hlt].
  { cbn. split; [| now right].
    split; [discriminate | intros (_ & H & _); lia]. }
  destruct (Z.eqb_spec (pipe_ret k) (-1)) as [Hp | Hp].
  { cbn. split; [| now right].
    split; [discriminate | intros (_ & _ & H & _); contradiction]. }
  match goal with
  | |- context [fork_loop ?k ?r ?sp ?a ?b ?fns 0] =>
      destruct (fork_loop_spec k r sp a b fns 0) as [Hok _];
      destruct (fork_loop k r sp a b fns 0) as [cs ok]
  end.
  cbn [snd] in Hok.
  destruct (first_fork_failure k 0 _); subst ok; cbn.
  - split; [| now right].
    split; [discriminate | intros (_ & _ & _ & H); discriminate].
  - split; [| now left]. split; [intros _ | reflexivity].
    repeat split; trivial; lia.
Qed.

(** X6. What the parent itself does (exit status, diagnostics, whether it
    created the pipe and read it, how many children it forked) depends
    only on the arguments and on what [pipe] and [fork] return: not on
    the directory tree, not on [realpath], not on the children's writes.
    In particular the exit status does not tell whether a file was
    found. *)
Theorem X6_parent_ignores_search_results
    (k k' : kernel) (argv : list string) (opts : list ascii) (optind : Z)
    (root root' : dirtree) :
  pipe_ret k = pipe_ret k' ->
  (forall n, fork_ret k n = fork_ret k' n) ->
  status (main k argv opts optind root)
  = status (main k' argv opts optind root')
  /\ diagnostics (main k argv opts optind root)
     = diagnostics (main k' argv opts optind root')
  /\ pipe_made (main k argv opts optind root)
     = pipe_made (main k' argv opts optind root')
  /\ drained (main k argv opts optind root)
     = drained (main k' argv opts optind root')
  /\ List.length (children (main k argv opts optind root))
     = List.length (children (main k' argv opts optind root')).
Proof.
  intros Hpipe Hfork. unfold main.
  destruct (getopt_loop opts false false) as [[isRecursive ignoreCase] |];
    [| now repeat split].
  destruct (optind >=? Z.of_nat (List.length argv) - 1); [now repeat split |].
  rewrite <- Hpipe.
  destruct (pipe_ret k =? -1); [now repeat split |].
  match goal with
  | |- context [fork_loop k ?r ?sp ?a ?b ?fns 0] =>
      destruct (fork_loop_spec k r sp a b fns 0) as [Hok Hlen];
      destruct (fork_loop_spec k' root' sp a b fns 0) as [Hok' Hlen'];
      rewrite <- (first_fork_failure_ext k k' Hfork) in Hok', Hlen';
      destruct (fork_loop k r sp a b fns 0) as [cs ok];
      destruct (fork_loop k' root' sp a b fns 0) as [cs' ok']
  end.
  cbn [fst snd] in *.
  assert (ok = ok') as <- by congruence.
  assert (List.length cs = List.length cs') as Hcs by congruence.
  destruct ok; cbn; now repeat split.
Qed.

Lemma X6_witness :
  let r := main plain_kernel ["myfind"; "/tmp/t"; "a.txt"] [] 1
             (Dir [file "a.txt"]) in
  let r' := main (unresolving_kernel "/tmp/t/a.txt")
              ["myfind"; "/tmp/t"; "a.txt"] [] 1 (NoDir ENOENT) in
  status r = status r'
  /\ diagnostics r = diagnostics r'
  /\ pipe_made r = pipe_made r'
  /\ drained r = drained r'
  /\ List.length (children r) = List.length (children r').
Proof.
  apply (X6_parent_ignores_search_results plain_kernel
           (unresolving_kernel "/tmp/t/a.txt")
           ["myfind"; "/tmp/t"; "a.txt"] [] 1
           (Dir [file "a.txt"]) (NoDir ENOENT)); reflexivity.
Defined.

(** X7. When the [j]-th [fork] is the first to fail, the parent reports
    it and exits with [EXIT_FAILURE] without reading the pipe: it prints
    nothing, although the pipe exists and the [j] children forked before
    (those of the first [j] file names) were started. *)
Theorem X7_fork_failure_loses_results
    (k : kernel) (argv : list string) (opts : list ascii) (optind : Z)
    (root : dirtree) (j : nat) :
  forallb known_option opts = true ->
  optind < Z.of_nat (List.length argv) - 1 ->
  pipe_ret k <> -1 ->
  first_fork_failure k 0 (List.length (skipn (Z.to_nat (optind + 1)) argv))
  = Some j ->
  status (main k argv opts optind root) = EXIT_FAILURE
  /\ diagnostics (main k argv opts optind root)
     = [Perror "Child process error!"]
  /\ pipe_made (main k argv opts optind root) = true
  /\ List.length (children (main k argv opts optind root)) = j
  /\ (forall out, prints (main k argv opts optind root) out -> out = [])
  /\ forall i c,
      nth_error (children (main k argv opts optind root)) i = Some c ->
      exists filename p,
        nth_error (skipn (Z.to_nat (optind + 1)) argv) i = Some filename
        /\ fork_ret k i = Some p
        /\ c = child k root (nth (Z.to_nat optind) argv ""%string) filename
                 (existsb (Ascii.eqb "R") opts) (existsb (Ascii.eqb "i") opts)
                 (fresh p).
Proof.
  intros Hopts Hargs Hpipe Hfail. unfold prints, main.
  rewrite getopt_loop_closed_form, Hopts.
  destruct (Z.geb_spec optind (Z.of_nat (List.length argv) - 1)); [lia |].
  destruct (Z.eqb_spec (pipe_ret k) (-1)); [contradiction |].
  cbn [orb].
  match goal with
  | |- context [fork_loop ?k ?r ?sp ?a ?b ?fns 0] =>
      destruct (fork_loop_spec k r sp a b fns 0) as [Hok Hlen];
      pose proof (fork_loop_forked k r sp a b fns 0) as Hforked;
      destruct (fork_loop k r sp a b fns 0) as [cs ok]
  end.
  cbn [fst snd] in *. rewrite Hfail in Hok, Hlen. subst ok.
  cbn [status diagnostics pipe_made children drained].
  split; [reflexivity |]. split; [reflexivity |]. split; [reflexivity |].
  split; [lia |]. split; [trivial |].
  intros i c Hc. exact (Hforked i c Hc).
Qed.

(** A kernel whose second [fork] fails. *)
Lemma X7_witness :
  let k := {| realpath := fun p => Some p; write_ret := fun _ _ => 1;
              pipe_ret := 0;
              fork_ret := fun n => if Nat.eqb n 1 then None else Some 100 |} in
  let r := main k ["myfind"; "/tmp/t"; "a.txt"; "b.txt"; "c.txt"] [] 1
             (Dir [file "a.txt"]) in
  status r = EXIT_FAILURE
  /\ diagnostics r = [Perror "Child process error!"]
  /\ pipe_made r = true
  /\ List.length (children r) = 1%nat
  /\ (forall out, prints r out -> out = [])
  /\ forall i c,
      nth_error (children r) i = Some c ->
      exists filename p,
        nth_error (skipn (Z.to_nat (1 + 1))
                     ["myfind"; "/tmp/t"; "a.txt"; "b.txt"; "c.txt"]%string) i
        = Some filename
        /\ fork_ret k i = Some p
        /\ c = child k (Dir [file "a.txt"])
                 (nth (Z.to_nat 1)
                    ["myfind"; "/tmp/t"; "a.txt"; "b.txt"; "c.txt"]%string
                    ""%string)
                 filename (existsb (Ascii.eqb "R") [])
                 (existsb (Ascii.eqb "i") []) (fresh p).
Proof.
  cbv zeta.
  apply (X7_fork_failure_loses_results
           {| realpath := fun p => Some p; write_ret := fun _ _ => 1;
              pipe_ret := 0;
              fork_ret := fun n => if Nat.eqb n 1 then None else Some 100 |}
           ["myfind"; "/tmp/t"; "a.txt"; "b.txt"; "c.txt"] [] 1
           (Dir [file "a.txt"]) 1);
    [reflexivity | cbn; lia | cbn; lia | reflexivity].
Defined.

(* ------------------------------------------------------------------ *)
(** *** The order of the records *)

Lemma subseq_nil_l {A} (l : list A) : subseq [] l.
Proof. induction l; constructor; assumption. Qed.

Lemma subseq_refl {A} (l : list A) : subseq l l.
Proof. induction l; constructor; assumption. Qed.

Lemma subseq_app {A} (a b c d : list A) :
  subseq a b -> subseq c d -> subseq (a ++ c) (b ++ d).
Proof.
  induction 1; intros Hcd; cbn;
    [exact Hcd | apply subseq_skip | apply subseq_take]; auto.
Qed.

Lemma subseq_In {A} (a b : list A) (x : A) :
  subseq a b -> In x a -> In x b.
Proof.
  induction 1; intros Hin; [exact Hin | right; auto |].
  destruct Hin as [-> | Hin]; [now left | right; auto].
Qed.

Lemma subseq_length {A} (a b : list A) :
  subseq a b -> (List.length a <= List.length b)%nat.
Proof. induction 1; cbn; lia. Qed.

Lemma files_in_Dir recursive path ents :
  files_in recursive path (Dir ents)
  = flat_map (entry_files recursive path) ents.
Proof. reflexivity. Qed.

Lemma resolve_all_app k filename ignoreCase l1 l2 :
  resolve_all k filename ignoreCase (l1 ++ l2)
  = resolve_all k filename ignoreCase l1
    ++ resolve_all k filename ignoreCase l2.
Proof. unfold resolve_all. now rewrite filter_app, flat_map_app. Qed.

Lemma resolved_in_scope_cons k recursive path p rest filename ignoreCase :
  resolved_in_scope k recursive path (Dir (p :: rest)) filename ignoreCase
  = resolve_all k filename ignoreCase (entry_files recursive path p)
    ++ resolved_in_scope k recursive path (Dir rest) filename ignoreCase.
Proof.
  unfold resolved_in_scope, matches_in_scope.
  rewrite !files_in_Dir. cbn [flat_map].
  apply (resolve_all_app k filename ignoreCase).
Qed.

Section Traces.

Variable k : kernel.
Variables (filename : string) (isRecursive ignoreCase : bool).

Local Abbreviation search dir path :=
  (searchForFile k dir path filename isRecursive ignoreCase).
Local Abbreviation loop path ents isFound :=
  (readdir_loop k path filename isRecursive ignoreCase ents isFound).
Local Abbreviation resolved path dir :=
  (resolved_in_scope k isRecursive path dir filename ignoreCase).
Local Abbreviation reports_in_order dir :=
  (Scope.reports_in_order k filename isRecursive ignoreCase dir).

(** What an entry adds to the resolved matches of the scope, by the
    branch the loop takes for it. *)
Lemma entry_resolved_pseudo path ent sub :
  pseudo (d_name ent) = true ->
  resolve_all k filename ignoreCase (entry_files isRecursive path (ent, sub))
  = [].
Proof. intros H. unfold entry_files. cbn [fst]. now rewrite H. Qed.

Lemma entry_resolved_dir path ent sub :
  pseudo (d_name ent) = false ->
  (d_type ent =? DT_DIR) && isRecursive = true ->
  resolve_all k filename ignoreCase (entry_files isRecursive path (ent, sub))
  = resolved (path ++ "/" ++ d_name ent)%string sub.
Proof.
  intros Hps Hdir. apply andb_true_iff in Hdir as [Hd Hrec].
  unfold entry_files. cbn [fst snd]. rewrite Hps, Hd. rewrite Hrec at 1.
  reflexivity.
Qed.

Lemma entry_resolved_file path ent sub :
  pseudo (d_name ent) = false ->
  (d_type ent =? DT_DIR) && isRecursive = false ->
  resolve_all k filename ignoreCase (entry_files isRecursive path (ent, sub))
  = if (d_type ent =? DT_REG)
       && isEqualString (d_name ent) filename ignoreCase
    then match realpath k (path ++ "/" ++ d_name ent)%string with
         | Some a => [a]
         | None => []
         end
    else [].
Proof.
  intros Hps Hdir. unfold entry_files. cbn [fst snd]. rewrite Hps.
  destruct (d_type ent =? DT_DIR) eqn:Hd.
  - cbn [andb] in Hdir. rewrite Hdir at 1.
    apply Z.eqb_eq in Hd. rewrite Hd. reflexivity.
  - destruct (d_type ent =? DT_REG); [| reflexivity].
    unfold resolve_all. cbn [filter snd andb].
    destruct (isEqualString (d_name ent) filename ignoreCase);
      [| reflexivity].
    cbn [flat_map fst]. now rewrite app_nil_r.
Qed.

Lemma loop_reports_in_order ents :
  Forall (fun p => reports_in_order (snd p)) ents ->
  forall path isFound s,
  exists paths,
    wrote s (final (loop path ents isFound s))
      (map (found_line (pid s) filename) paths)
    /\ subseq paths (resolved path (Dir ents))
    /\ (isRecursive = false ->
        forall b s', loop path ents isFound s = Returned b s' ->
                     paths = resolved path (Dir ents)).
Proof.
  induction 1 as [| [ent sub] rest Hsub _ IH]; intros path isFound s.
  - exists []. rewrite loop_nil. split; [apply wrote_refl |].
    split; [constructor | reflexivity].
  - rewrite loop_cons, resolved_in_scope_cons. cbv zeta.
    assert (Hrest : forall isFound' s1 pre here,
               wrote s s1 (map (found_line (pid s) filename) pre) ->
               subseq pre here ->
               exists paths,
                 wrote s (final (loop path rest isFound' s1))
                   (map (found_line (pid s) filename) paths)
                 /\ subseq paths (here ++ resolved path (Dir rest))
                 /\ (isRecursive = false ->
                     pre = here ->
                     forall b s',
                       loop path rest isFound' s1 = Returned b s' ->
                       paths = here ++ resolved path (Dir rest))).
    { intros isFound' s1 pre here Hw Hpre.
      destruct (IH path isFound' s1) as (more & Hw2 & Hsq & Hex).
      exists (pre ++ more). split; [| split].
      - rewrite map_app. eapply wrote_trans; [exact Hw |].
        destruct Hw as [Hp _]. rewrite <- Hp. exact Hw2.
      - now apply subseq_app.
      - intros Hsh -> b s' E. now rewrite (Hex Hsh b s' E). }
    destruct (pseudo (d_name ent)) eqn:Hps.
    { rewrite entry_resolved_pseudo by exact Hps.
      destruct (Hrest isFound s [] [] (wrote_refl s) subseq_nil)
        as (paths & ? & ? & Hex).
      exists paths. split; [| split]; trivial.
      intros Hsh. exact (Hex Hsh eq_refl). }
    destruct ((d_type ent =? DT_DIR) && isRecursive) eqn:Hdir.
    { rewrite entry_resolved_dir by assumption.
      apply andb_true_iff in Hdir as [_ Hrec].
      destruct isFound.
      - destruct (Hrest true s [] (resolved (path ++ "/" ++ d_name ent)%string
                                     sub)
                    (wrote_refl s) (subseq_nil_l _))
          as (paths & ? & ? & _).
        exists paths. split; [| split]; trivial. congruence.
      - destruct (Hsub (path ++ "/" ++ d_name ent)%string s)
          as (pre & Hw & Hsq & _). cbn [snd] in *.
        destruct (search sub _ s) as [b1 s1 | st s1]; cbn [final] in Hw.
        + destruct (Hrest b1 s1 pre _ Hw Hsq) as (paths & ? & ? & _).
          exists paths. split; [| split]; trivial. congruence.
        + exists pre. cbn [final]. split; [| split]; trivial; [| congruence].
          rewrite <- (app_nil_r pre).
          apply subseq_app; [exact Hsq | apply subseq_nil_l]. }
    rewrite entry_resolved_file by assumption.
    destruct ((d_type ent =? DT_REG)
              && isEqualString (d_name ent) filename ignoreCase).
    { destruct (realpath k (path ++ "/" ++ d_name ent)%string) as [a |].
      - destruct (write_ret k (pid s) (List.length (pipe_out s)) <? 0).
        + exists []. cbn [final map]. split; [apply wrote_with_err |].
          split; [apply subseq_nil_l | discriminate].
        + destruct (Hrest true (with_pipe s (found_line (pid s) filename a))
                      [a] [a] (wrote_with_pipe _ _) (subseq_refl _))
            as (paths & ? & ? & Hex).
          exists paths. split; [| split]; trivial.
      intros Hsh. exact (Hex Hsh eq_refl).
      - destruct (Hrest isFound s [] [] (wrote_refl s) subseq_nil)
          as (paths & ? & ? & Hex).
        exists paths. split; [| split]; trivial.
      intros Hsh. exact (Hex Hsh eq_refl). }
    destruct (Hrest isFound s [] [] (wrote_refl s) subseq_nil)
      as (paths & ? & ? & Hex).
    exists paths. split; [| split]; trivial.
      intros Hsh. exact (Hex Hsh eq_refl).
Qed.

Lemma search_reports_in_order dir : reports_in_order dir.
Proof.
  induction dir as [errno | ents IH] using dirtree_ind'; intros path s.
  - exists []. rewrite searchForFile_NoDir. cbn [final map].
    split; [| split].
    + eapply (wrote_trans _ _ _ [] []);
        [apply wrote_with_opened | apply wrote_with_err].
    + constructor.
    + reflexivity.
  - rewrite searchForFile_Dir.
    destruct (loop_reports_in_order ents IH path false (with_opened s path))
      as (paths & Hw & Hsq & Hex).
    exists paths. split; [| split]; trivial.
Qed.

End Traces.

Lemma map_found_line_length p filename (l1 l2 : list string) :
  map (found_line p filename) l1 = map (found_line p filename) l2 ->
  nonempty l1 = nonempty l2.
Proof.
  intros H. apply (f_equal (@List.length string)) in H.
  rewrite !length_map in H. destruct l1, l2; cbn in *; congruence.
Qed.

Lemma nonempty_subseq {A} (a b : list A) :
  subseq a b -> nonempty a = true -> nonempty b = true.
Proof. destruct 1; cbn; congruence. Qed.

(** When [searchForFile] returns, it returns whether some matching
    regular file of its scope resolves. *)
Lemma found_flag_exact k filename isRecursive ignoreCase dir path s b s' :
  searchForFile k dir path filename isRecursive ignoreCase s = Returned b s' ->
  b = nonempty (resolved_in_scope k isRecursive path dir filename ignoreCase).
Proof.
  intros E.
  destruct (resolved_in_scope k isRecursive path dir filename ignoreCase)
    as [| a r] eqn:Hres.
  - destruct (search_adds_matches k filename isRecursive ignoreCase dir path s)
      as (paths & _ & Hall & Hb).
    rewrite (Hb _ _ E). destruct paths as [| a r]; [reflexivity |].
    inversion Hall as [| ? ? Ha _]; subst.
    apply resolved_match_iff in Ha. rewrite Hres in Ha. destruct Ha.
  - apply (search_finds_if_any k filename isRecursive ignoreCase dir path s
             b s' a E).
    apply resolved_match_iff. rewrite Hres. now left.
Qed.

(** X8. Whatever the outcome of a search, the match records it added to
    the pipe are, in order, a subsequence of the resolved matches of its
    scope taken in traversal order: nothing from outside the scope,
    nothing out of order, nothing more often than the scope holds it. *)
Theorem X8_records_follow_the_traversal
    (k : kernel) (dir : dirtree) (path filename : string)
    (isRecursive ignoreCase : bool) (s : proc) :
  exists paths,
    pipe_out (final (searchForFile k dir path filename isRecursive ignoreCase s))
    = pipe_out s ++ map (found_line (pid s) filename) paths
    /\ subseq paths
         (resolved_in_scope k isRecursive path dir filename ignoreCase).
Proof.
  destruct (search_reports_in_order k filename isRecursive ignoreCase dir
              path s) as (paths & [_ Ho] & Hsq & _).
  exists paths. now split.
Qed.

(** X9. Without the recursion flag, a search that returns has added to
    the pipe exactly one record per matching regular entry of the
    directory whose path resolves, in [readdir] order, and returns
    whether there was one. *)
Theorem X9_shallow_search_is_exact
    (k : kernel) (dir : dirtree) (path filename : string)
    (ignoreCase : bool) (s : proc) (b : bool) (s' : proc) :
  searchForFile k dir path filename false ignoreCase s = Returned b s' ->
  pipe_out s'
  = pipe_out s
    ++ map (found_line (pid s) filename)
         (resolved_in_scope k false path dir filename ignoreCase)
  /\ b = nonempty (resolved_in_scope k false path dir filename ignoreCase).
Proof.
  intros E.
  destruct (search_reports_in_order k filename false ignoreCase dir path s)
    as (paths & [_ Ho] & _ & Hex).
  rewrite <- (Hex eq_refl b s' E). rewrite E in Ho. cbn [final] in Ho.
  split; [exact Ho |].
  rewrite (Hex eq_refl b s' E). now apply found_flag_exact in E.
Qed.

Lemma X9_witness :
  pipe_out
    (final (searchForFile (unresolving_kernel "/tmp/t/a.txt")
              (Dir [file "A.txt"; file "a.txt"; subdir "a.TXT" [file "a.txt"];
                    file "a.TxT"])
              "/tmp/t" "a.txt" false true (fresh 100)))
  = pipe_out (fresh 100)
    ++ map (found_line (pid (fresh 100)) "a.txt")
         (resolved_in_scope (unresolving_kernel "/tmp/t/a.txt") false "/tmp/t"
            (Dir [file "A.txt"; file "a.txt"; subdir "a.TXT" [file "a.txt"];
                  file "a.TxT"])
            "a.txt" true)
  /\ true
     = nonempty
         (resolved_in_scope (unresolving_kernel "/tmp/t/a.txt") false "/tmp/t"
            (Dir [file "A.txt"; file "a.txt"; subdir "a.TXT" [file "a.txt"];
                  file "a.TxT"])
            "a.txt" true).
Proof.
  apply (X9_shallow_search_is_exact (unresolving_kernel "/tmp/t/a.txt")
           (Dir [file "A.txt"; file "a.txt"; subdir "a.TXT" [file "a.txt"];
                 file "a.TxT"])
           "/tmp/t" "a.txt" true (fresh 100) true).
  reflexivity.
Defined.

(** X10. When [searchForFile] returns, its result is true exactly when
    some regular file of the scope matches the name and resolves: a
    directory passed over after a match never changes the answer. *)
Theorem X10_found_flag_is_exact
    (k : kernel) (dir : dirtree) (path filename : string)
    (isRecursive ignoreCase : bool) (s : proc) (b : bool) (s' : proc) :
  searchForFile k dir path filename isRecursive ignoreCase s = Returned b s' ->
  (b = true
   <-> exists fullpath name absPath,
         In (fullpath, name) (files_in isRecursive path dir)
         /\ isEqualString name filename ignoreCase = true
         /\ realpath k fullpath = Some absPath).
Proof.
  intros E. rewrite (found_flag_exact _ _ _ _ _ _ _ _ _ E). split.
  - destruct (resolved_in_scope k isRecursive path dir filename ignoreCase)
      as [| a r] eqn:Hres; [discriminate |].
    intros _.
    assert (Ha : resolved_match k isRecursive path dir filename ignoreCase a).
    { apply resolved_match_iff. rewrite Hres. now left. }
    destruct Ha as (fp & n & ?). now exists fp, n, a.
  - intros (fp & n & a & H).
    assert (Ha : resolved_match k isRecursive path dir filename ignoreCase a)
      by now exists fp, n.
    apply resolved_match_iff in Ha.
    destruct (resolved_in_scope k isRecursive path dir filename ignoreCase);
      [destruct Ha | reflexivity].
Qed.

Lemma X10_witness :
  true = true
  <-> exists fullpath name absPath,
        In (fullpath, name)
          (files_in true "/tmp/t"
             (Dir [file "b.txt"; subdir "d1" [subdir "d2" [file "a.txt"]]]))
        /\ isEqualString name "a.txt" false = true
        /\ realpath plain_kernel fullpath = Some absPath.
Proof.
  apply (X10_found_flag_is_exact plain_kernel
           (Dir [file "b.txt"; subdir "d1" [subdir "d2" [file "a.txt"]]])
           "/tmp/t" "a.txt" true false (fresh 100) true
           (final (searchForFile plain_kernel
                     (Dir [file "b.txt";
                           subdir "d1" [subdir "d2" [file "a.txt"]]])
                     "/tmp/t" "a.txt" true false (fresh 100)))).
  reflexivity.
Defined.

(** X11. A task whose writes are all accepted ends with
    [exit(EXIT_SUCCESS)]; if some matching regular file of the scope
    resolves, its output is a non-empty list of match records (and no
    "File not found" record), else exactly the "File not found"
    record. *)
Theorem X11_task_report
    (k : kernel) (root : dirtree) (searchpath filename : string)
    (isRecursive ignoreCase : bool) (p : Z) :
  (forall n, 0 <= write_ret k p n) ->
  exists s' paths,
    child k root searchpath filename isRecursive ignoreCase (fresh p)
    = Exited EXIT_SUCCESS s'
    /\ subseq paths
         (resolved_in_scope k isRecursive searchpath root filename ignoreCase)
    /\ nonempty paths
       = nonempty
           (resolved_in_scope k isRecursive searchpath root filename ignoreCase)
    /\ pipe_out s'
       = if nonempty paths
         then map (found_line p filename) paths
         else [notfound_line p filename searchpath].
Proof.
  intros Hok.
  destruct (child_exits_successfully k filename isRecursive ignoreCase root
              searchpath p Hok) as (s' & Hc).
  destruct (child_success_cases _ _ _ _ _ _ _ _ Hc) as (b & s1 & E & Hs').
  destruct (search_reports_in_order k filename isRecursive ignoreCase root
              searchpath (fresh p)) as (paths & [Hp Ho] & Hsq & _).
  destruct (search_adds_matches k filename isRecursive ignoreCase root
              searchpath (fresh p)) as (paths' & [_ Ho'] & _ & Hb).
  rewrite E in Hp, Ho, Ho'. cbn [final fresh pid pipe_out app] in Hp, Ho, Ho'.
  assert (Hne : nonempty paths = b).
  { rewrite (Hb _ _ E). apply (map_found_line_length p filename). congruence. }
  exists s', paths. split; [exact Hc |]. split; [exact Hsq |].
  split; [rewrite Hne; now apply found_flag_exact in E |].
  rewrite Hne, Hs'. destruct b; [exact Ho |].
  cbn [with_pipe pipe_out]. rewrite Ho, Hp.
  destruct paths; [reflexivity | discriminate].
Qed.

Lemma X11_witness :
  exists s' paths,
    child plain_kernel
      (Dir [subdir "d1" [file "a.txt"]; file "a.txt"; subdir "d2" [file "a.txt"]])
      "/tmp/t" "a.txt" true false (fresh 100)
    = Exited EXIT_SUCCESS s'
    /\ subseq paths
         (resolved_in_scope plain_kernel true "/tmp/t"
            (Dir [subdir "d1" [file "a.txt"]; file "a.txt";
                  subdir "d2" [file "a.txt"]])
            "a.txt" false)
    /\ nonempty paths
       = nonempty
           (resolved_in_scope plain_kernel true "/tmp/t"
              (Dir [subdir "d1" [file "a.txt"]; file "a.txt";
                    subdir "d2" [file "a.txt"]])
              "a.txt" false)
    /\ pipe_out s'
       = if nonempty paths
         then map (found_line 100 "a.txt") paths
         else [notfound_line 100 "a.txt" "/tmp/t"].
Proof.
  apply X11_task_report. intros n. cbn. lia.
Defined.

(* ------------------------------------------------------------------ *)
(** *** The case flag *)

Lemma subseq_filter_imp {A} (f g : A -> bool) (l : list A) :
  (forall x, f x = true -> g x = true) ->
  subseq (filter f l) (filter g l).
Proof.
  intros Himp. induction l as [| x l IH]; cbn; [constructor |].
  destruct (f x) eqn:Hf.
  - rewrite (Himp x Hf). now constructor.
  - destruct (g x); [now constructor | exact IH].
Qed.

Lemma subseq_flat_map {A B} (f : A -> list B) (a b : list A) :
  subseq a b -> subseq (flat_map f a) (flat_map f b).
Proof.
  induction 1; cbn; [constructor | |].
  - change (flat_map f l1) with ([] ++ flat_map f l1).
    apply subseq_app; [apply subseq_nil_l | assumption].
  - apply subseq_app; [apply subseq_refl | assumption].
Qed.

Lemma sensitive_match_is_insensitive (s1 s2 : string) :
  isEqualString s1 s2 false = true -> isEqualString s1 s2 true = true.
Proof.
  intros H. cbn in H. apply String.eqb_eq in H as ->.
  apply isEqualString_fold. reflexivity.
Qed.

Lemma resolved_in_scope_case_flag k recursive path dir filename :
  subseq (resolved_in_scope k recursive path dir filename false)
         (resolved_in_scope k recursive path dir filename true).
Proof.
  unfold resolved_in_scope, matches_in_scope.
  apply subseq_flat_map, subseq_filter_imp.
  intros [fp n]. apply sensitive_match_is_insensitive.
Qed.

(** X12. Over the same tree, when the case-sensitive and the
    case-insensitive search both return: if the first returns true so
    does the second; and without the recursion flag the paths reported
    by the first are, in order, among those reported by the second. *)
Theorem X12_case_flag_only_adds
    (k : kernel) (dir : dirtree) (path filename : string)
    (isRecursive : bool) (s : proc) (b1 b2 : bool) (s1 s2 : proc) :
  searchForFile k dir path filename isRecursive false s = Returned b1 s1 ->
  searchForFile k dir path filename isRecursive true s = Returned b2 s2 ->
  (b1 = true -> b2 = true)
  /\ (isRecursive = false ->
      exists paths1 paths2,
        pipe_out s1 = pipe_out s ++ map (found_line (pid s) filename) paths1
        /\ pipe_out s2 = pipe_out s ++ map (found_line (pid s) filename) paths2
        /\ subseq paths1 paths2).
Proof.
  intros E1 E2. split.
  - rewrite (found_flag_exact _ _ _ _ _ _ _ _ _ E1),
            (found_flag_exact _ _ _ _ _ _ _ _ _ E2).
    apply nonempty_subseq, resolved_in_scope_case_flag.
  - intros Hsh.
    destruct (search_reports_in_order k filename isRecursive false dir path s)
      as (paths1 & [_ Ho1] & _ & Hex1).
    destruct (search_reports_in_order k filename isRecursive true dir path s)
      as (paths2 & [_ Ho2] & _ & Hex2).
    rewrite E1 in Ho1. rewrite E2 in Ho2. cbn [final] in Ho1, Ho2.
    exists paths1, paths2. split; [exact Ho1 |]. split; [exact Ho2 |].
    rewrite (Hex1 Hsh _ _ E1), (Hex2 Hsh _ _ E2).
    apply resolved_in_scope_case_flag.
Qed.

Lemma X12_witness :
  (true = true -> true = true)
  /\ (false = false ->
      exists paths1 paths2,
        pipe_out
          (final (searchForFile plain_kernel
                    (Dir [file "A.txt"; file "a.txt"]) "/tmp/t" "a.txt"
                    false false (fresh 100)))
        = pipe_out (fresh 100)
          ++ map (found_line (pid (fresh 100)) "a.txt") paths1
        /\ pipe_out
             (final (searchForFile plain_kernel
                       (Dir [file "A.txt"; file "a.txt"]) "/tmp/t" "a.txt"
                       false true (fresh 100)))
           = pipe_out (fresh 100)
             ++ map (found_line (pid (fresh 100)) "a.txt") paths2
        /\ subseq paths1 paths2).
Proof.
  apply (X12_case_flag_only_adds plain_kernel
           (Dir [file "A.txt"; file "a.txt"]) "/tmp/t" "a.txt" false
           (fresh 100) true true); reflexivity.
Defined.

(* ------------------------------------------------------------------ *)
(** *** Directories opened and diagnostics written *)

Lemma dirs_in_Dir recursive path ents :
  dirs_in recursive path (Dir ents)
  = path :: flat_map (entry_dirs recursive path) ents.
Proof. reflexivity. Qed.

Lemma open_failures_in_Dir recursive path ents :
  open_failures_in recursive path (Dir ents)
  = flat_map (entry_failures recursive path) ents.
Proof. reflexivity. Qed.

Section Walk.

Variable k : kernel.
Variables (filename : string) (isRecursive ignoreCase : bool).

Local Abbreviation search dir path :=
  (searchForFile k dir path filename isRecursive ignoreCase).
Local Abbreviation loop path ents isFound :=
  (readdir_loop k path filename isRecursive ignoreCase ents isFound).
Local Abbreviation walks_in_order dir :=
  (Scope.walks_in_order k filename isRecursive ignoreCase dir).

Lemma loop_walks_in_order ents :
  Forall (fun p => walks_in_order (snd p)) ents ->
  forall path isFound s,
  exists ds fs,
    opened (final (loop path ents isFound s)) = opened s ++ ds
    /\ err_out (final (loop path ents isFound s))
       = err_out s ++ fs ++ exit_note (loop path ents isFound s)
    /\ subseq ds (flat_map (entry_dirs isRecursive path) ents)
    /\ subseq fs (flat_map (entry_failures isRecursive path) ents)
    /\ (forall s',
          loop path ents isFound s = Returned false s' ->
          ds = flat_map (entry_dirs isRecursive path) ents
          /\ fs = flat_map (entry_failures isRecursive path) ents).
Proof.
  induction 1 as [| [ent sub] rest Hsub _ IH]; intros path isFound s.
  - exists [], []. rewrite loop_nil. cbn.
    rewrite !app_nil_r. repeat split; constructor.
  - rewrite loop_cons. cbv zeta. cbn [flat_map].
    assert (Hrest : forall isFound' s1 ds0 fs0 dhere fhere,
               opened s1 = opened s ++ ds0 ->
               err_out s1 = err_out s ++ fs0 ->
               subseq ds0 dhere ->
               subseq fs0 fhere ->
               exists ds fs,
                 opened (final (loop path rest isFound' s1)) = opened s ++ ds
                 /\ err_out (final (loop path rest isFound' s1))
                    = err_out s ++ fs ++ exit_note (loop path rest isFound' s1)
                 /\ subseq ds
                      (dhere ++ flat_map (entry_dirs isRecursive path) rest)
                 /\ subseq fs
                      (fhere ++ flat_map (entry_failures isRecursive path) rest)
                 /\ (forall s',
                       loop path rest isFound' s1 = Returned false s' ->
                       ds0 = dhere -> fs0 = fhere ->
                       ds = dhere ++ flat_map (entry_dirs isRecursive path) rest
                       /\ fs = fhere
                               ++ flat_map (entry_failures isRecursive path)
                                    rest)).
    { intros isFound' s1 ds0 fs0 dhere fhere Ho He Hd Hf.
      destruct (IH path isFound' s1) as (ds & fs & Ho2 & He2 & Hd2 & Hf2 & Hex).
      exists (ds0 ++ ds), (fs0 ++ fs).
      split; [now rewrite Ho2, Ho, app_assoc |].
      split; [now rewrite He2, He, !app_assoc |].
      split; [now apply subseq_app |].
      split; [now apply subseq_app |].
      intros s' E -> ->. destruct (Hex s' E) as [-> ->]. now split. }
    assert (Hplain : forall isFound',
               exists ds fs,
                 opened (final (loop path rest isFound' s)) = opened s ++ ds
                 /\ err_out (final (loop path rest isFound' s))
                    = err_out s ++ fs ++ exit_note (loop path rest isFound' s)
                 /\ subseq ds (flat_map (entry_dirs isRecursive path) rest)
                 /\ subseq fs (flat_map (entry_failures isRecursive path) rest)
                 /\ (forall s',
                       loop path rest isFound' s = Returned false s' ->
                       ds = flat_map (entry_dirs isRecursive path) rest
                       /\ fs = flat_map (entry_failures isRecursive path) rest)).
    { intros isFound'.
      destruct (Hrest isFound' s [] [] [] []
                  (eq_sym (app_nil_r _)) (eq_sym (app_nil_r _))
                  subseq_nil subseq_nil)
        as (ds & fs & Ho & He & Hd & Hf & Hex).
      exists ds, fs.
      split; [exact Ho |]. split; [exact He |].
      split; [exact Hd |]. split; [exact Hf |].
      intros s' E. exact (Hex s' E eq_refl eq_refl). }
    change (entry_dirs isRecursive path (ent, sub))
      with (if pseudo (d_name ent) then []
            else if (d_type ent =? DT_DIR) && isRecursive
                 then dirs_in isRecursive (path ++ "/" ++ d_name ent)%string sub
                 else []).
    change (entry_failures isRecursive path (ent, sub))
      with (if pseudo (d_name ent) then []
            else if (d_type ent =? DT_DIR) && isRecursive
                 then open_failures_in isRecursive
                        (path ++ "/" ++ d_name ent)%string sub
                 else []).
    destruct (pseudo (d_name ent)) eqn:Hps; [apply Hplain |].
    destruct ((d_type ent =? DT_DIR) && isRecursive) eqn:Hdir.
    { destruct isFound.
      - destruct (Hrest true s [] []
                    (dirs_in isRecursive (path ++ "/" ++ d_name ent)%string sub)
                    (open_failures_in isRecursive
                       (path ++ "/" ++ d_name ent)%string sub)
                    (eq_sym (app_nil_r _)) (eq_sym (app_nil_r _))
                    (subseq_nil_l _) (subseq_nil_l _))
          as (ds & fs & Ho & He & Hd & Hf & _).
        exists ds, fs.
        split; [exact Ho |]. split; [exact He |].
        split; [exact Hd |]. split; [exact Hf |].
        intros s' E. apply loop_true_stays in E. discriminate.
      - destruct (Hsub (path ++ "/" ++ d_name ent)%string s)
          as (ds1 & fs1 & Ho1 & He1 & Hd1 & Hf1 & Hex1). cbn [snd] in *.
        destruct (search sub _ s) as [b1 s1 | st s1] eqn:E1;
          cbn [final exit_note] in *.
        + rewrite app_nil_r in He1.
          destruct (Hrest b1 s1 ds1 fs1 _ _ Ho1 He1 Hd1 Hf1)
            as (ds & fs & Ho & He & Hd & Hf & Hex).
          exists ds, fs.
          split; [exact Ho |]. split; [exact He |].
          split; [exact Hd |]. split; [exact Hf |].
          intros s' E.
          destruct b1; [apply loop_true_stays in E; discriminate |].
          destruct (Hex1 s1 eq_refl) as [Hd1' Hf1'].
          exact (Hex s' E Hd1' Hf1').
        + exists ds1, fs1.
          split; [exact Ho1 |]. split; [exact He1 |].
          split; [| split; [| discriminate]].
          * rewrite <- (app_nil_r ds1).
            apply subseq_app; [exact Hd1 | apply subseq_nil_l].
          * rewrite <- (app_nil_r fs1).
            apply subseq_app; [exact Hf1 | apply subseq_nil_l]. }
    destruct ((d_type ent =? DT_REG)
              && isEqualString (d_name ent) filename ignoreCase);
      [| apply Hplain].
    destruct (realpath k (path ++ "/" ++ d_name ent)%string) as [a |];
      [| apply Hplain].
    destruct (write_ret k (pid s) (List.length (pipe_out s)) <? 0).
    + exists [], []. cbn. rewrite app_nil_r.
      split; [reflexivity |]. split; [reflexivity |].
      split; [apply subseq_nil_l |]. split; [apply subseq_nil_l |].
      discriminate.
    + destruct (Hrest true (with_pipe s (found_line (pid s) filename a))
                  [] [] [] []
                  (eq_sym (app_nil_r _)) (eq_sym (app_nil_r _))
                  subseq_nil subseq_nil)
        as (ds & fs & Ho & He & Hd & Hf & Hex).
      exists ds, fs.
      split; [exact Ho |]. split; [exact He |].
      split; [exact Hd |]. split; [exact Hf |].
      intros s' E. exact (Hex s' E eq_refl eq_refl).
Qed.

Lemma search_walks_in_order dir : walks_in_order dir.
Proof.
  induction dir as [errno | ents IH] using dirtree_ind'; intros path s.
  - exists [path], [Perror (open_error_message path errno)].
    rewrite searchForFile_NoDir. cbn.
    split; [reflexivity |]. split; [reflexivity |].
    split; [apply subseq_refl |]. split; [apply subseq_refl |].
    intros s' _. now split.
  - rewrite searchForFile_Dir, dirs_in_Dir, open_failures_in_Dir.
    destruct (loop_walks_in_order ents IH path false (with_opened s path))
      as (ds & fs & Ho & He & Hd & Hf & Hex).
    exists (path :: ds), fs. cbn [with_opened opened err_out] in *.
    split; [now rewrite Ho, <- app_assoc |].
    split; [exact He |].
    split; [now constructor |].
    split; [exact Hf |].
    intros s' E. destruct (Hex s' E) as [-> ->]. now split.
Qed.

End Walk.

(** X13. Whatever the outcome, the directories a search opens are, in
    order, a subsequence of those of a complete traversal of its scope:
    it never opens [.] or [..], never an entry whose type is not
    [DT_DIR], and no directory more often than the traversal meets it. *)
Theorem X13_only_directories_of_the_scope_are_opened
    (k : kernel) (dir : dirtree) (path filename : string)
    (isRecursive ignoreCase : bool) (s : proc) :
  exists ds,
    opened (final (searchForFile k dir path filename isRecursive ignoreCase s))
    = opened s ++ ds
    /\ subseq ds (dirs_in isRecursive path dir).
Proof.
  destruct (search_walks_in_order k filename isRecursive ignoreCase dir path s)
    as (ds & fs & Ho & _ & Hd & _).
  exists ds. now split.
Qed.

(** X14. A search that returns false has walked its whole scope: it
    opened every directory of the scope, in traversal order, and wrote
    one diagnostic for each of them that did not open, and nothing else
    to stderr. *)
Theorem X14_false_means_complete_traversal
    (k : kernel) (dir : dirtree) (path filename : string)
    (isRecursive ignoreCase : bool) (s s' : proc) :
  searchForFile k dir path filename isRecursive ignoreCase s
  = Returned false s' ->
  opened s' = opened s ++ dirs_in isRecursive path dir
  /\ err_out s' = err_out s ++ open_failures_in isRecursive path dir
  /\ pipe_out s' = pipe_out s.
Proof.
  intros E.
  destruct (search_walks_in_order k filename isRecursive ignoreCase dir path s)
    as (ds & fs & Ho & He & _ & _ & Hex).
  destruct (Hex s' E) as [-> ->].
  rewrite E in Ho, He. cbn [final exit_note] in Ho, He.
  rewrite app_nil_r in He. split; [exact Ho |]. split; [exact He |].
  destruct (search_adds_matches k filename isRecursive ignoreCase dir path s)
    as (paths & [_ Hp] & _ & Hb).
  rewrite E in Hp. cbn [final] in Hp.
  specialize (Hb _ _ E). destruct paths; [| discriminate].
  cbn in Hp. now rewrite app_nil_r in Hp.
Qed.

Lemma X14_witness :
  opened (final (searchForFile plain_kernel sample_tree "/tmp/t" "a.txt"
                   true false (fresh 100)))
  = opened (fresh 100) ++ dirs_in true "/tmp/t" sample_tree
  /\ err_out (final (searchForFile plain_kernel sample_tree "/tmp/t" "a.txt"
                       true false (fresh 100)))
     = err_out (fresh 100) ++ open_failures_in true "/tmp/t" sample_tree
  /\ pipe_out (final (searchForFile plain_kernel sample_tree "/tmp/t" "a.txt"
                        true false (fresh 100)))
     = pipe_out (fresh 100).
Proof.
  apply (X14_false_means_complete_traversal plain_kernel sample_tree
           "/tmp/t" "a.txt" true false (fresh 100)).
  reflexivity.
Defined.

(** X15. Whatever the outcome, what a search writes to stderr is, in
    order, a subsequence of the open failures of its scope (one [perror]
    line per directory it could not open), followed by the line "Error
    writing to pipe" exactly when it left through [exit]. *)
Theorem X15_diagnostics_of_a_search
    (k : kernel) (dir : dirtree) (path filename : string)
    (isRecursive ignoreCase : bool) (s : proc) :
  exists fs,
    err_out (final (searchForFile k dir path filename isRecursive ignoreCase s))
    = err_out s ++ fs
      ++ exit_note (searchForFile k dir path filename isRecursive ignoreCase s)
    /\ subseq fs (open_failures_in isRecursive path dir).
Proof.
  destruct (search_walks_in_order k filename isRecursive ignoreCase dir path s)
    as (ds & fs & _ & He & _ & Hf & _).
  exists fs. now split.
Qed.

(** X16. Without the recursion flag a search opens exactly one
    directory, the one it was given, whether or not it opens and
    whatever it holds. *)
Theorem X16_shallow_search_opens_one_directory
    (k : kernel) (dir : dirtree) (path filename : string)
    (ignoreCase : bool) (s : proc) :
  opened (final (searchForFile k dir path filename false ignoreCase s))
  = opened s ++ [path].
Proof. apply shallow_search_opens_root_only. Qed.

(* ------------------------------------------------------------------ *)
(** *** The first match *)

Section First.

Variable k : kernel.
Variables (filename : string) (isRecursive ignoreCase : bool).

Local Abbreviation search dir path :=
  (searchForFile k dir path filename isRecursive ignoreCase).
Local Abbreviation loop path ents isFound :=
  (readdir_loop k path filename isRecursive ignoreCase ents isFound).
Local Abbreviation resolved path dir :=
  (resolved_in_scope k isRecursive path dir filename ignoreCase).
Local Abbreviation reports_first dir :=
  (Scope.reports_first k filename isRecursive ignoreCase dir).

(** What the rest of the loop adds once something was written. *)
Lemma loop_wrote_more path ents isFound s b s' :
  loop path ents isFound s = Returned b s' ->
  exists more, wrote s s' (map (found_line (pid s) filename) more).
Proof.
  intros E.
  destruct (loop_adds_matches k filename isRecursive ignoreCase ents)
    with (path := path) (isFound := isFound) (s := s) as (more & Hw & _).
  { apply Forall_forall. intros ? _. apply search_adds_matches. }
  rewrite E in Hw. now exists more.
Qed.

Lemma loop_reports_first ents :
  Forall (fun p => reports_first (snd p)) ents ->
  forall path s b s',
    loop path ents false s = Returned b s' ->
    exists paths,
      wrote s s' (map (found_line (pid s) filename) paths)
      /\ hd_error paths = hd_error (resolved path (Dir ents)).
Proof.
  induction 1 as [| [ent sub] rest Hsub _ IH]; intros path s b s' E.
  - rewrite loop_nil in E. injection E as _ <-.
    exists []. split; [apply wrote_refl | reflexivity].
  - rewrite loop_cons in E. cbv zeta in E.
    rewrite resolved_in_scope_cons.
    destruct (pseudo (d_name ent)) eqn:Hps.
    { rewrite entry_resolved_pseudo by exact Hps. exact (IH _ _ _ _ E). }
    destruct ((d_type ent =? DT_DIR) && isRecursive) eqn:Hdir.
    { rewrite entry_resolved_dir by assumption.
      destruct (search sub _ s) as [b1 s1 |] eqn:E1; [| discriminate].
      destruct (Hsub _ _ _ _ E1) as (pre & Hw1 & Hhd). cbn [snd] in *.
      pose proof (found_flag_exact _ _ _ _ _ _ _ _ _ E1) as Hb1.
      destruct (resolved (path ++ "/" ++ d_name ent)%string sub)
        as [| a r] eqn:Hres.
      - destruct pre; [| discriminate]. subst b1.
        destruct (IH _ _ _ _ E) as (paths & Hw & Hh).
        exists paths. split; [| exact Hh].
        change paths with ([] ++ paths). rewrite map_app.
        eapply wrote_trans; [exact Hw1 |].
        destruct Hw1 as [Hp _]. now rewrite <- Hp.
      - destruct pre as [| a' pre]; [discriminate |].
        injection Hhd as ->.
        destruct (loop_wrote_more _ _ _ _ _ _ E) as (more & Hw).
        exists ((a :: pre) ++ more). split; [| reflexivity].
        rewrite map_app. eapply wrote_trans; [exact Hw1 |].
        destruct Hw1 as [Hp _]. now rewrite <- Hp. }
    rewrite entry_resolved_file by assumption.
    destruct ((d_type ent =? DT_REG)
              && isEqualString (d_name ent) filename ignoreCase);
      [| exact (IH _ _ _ _ E)].
    destruct (realpath k (path ++ "/" ++ d_name ent)%string) as [a |];
      [| exact (IH _ _ _ _ E)].
    destruct (write_ret k (pid s) (List.length (pipe_out s)) <? 0);
      [discriminate |].
    destruct (loop_wrote_more _ _ _ _ _ _ E) as (more & Hw).
    exists ([a] ++ more). split; [| reflexivity].
    rewrite map_app. eapply wrote_trans; [apply wrote_with_pipe | exact Hw].
Qed.

Lemma search_reports_first dir : reports_first dir.
Proof.
  induction dir as [errno | ents IH] using dirtree_ind';
    intros path s b s' E.
  - rewrite searchForFile_NoDir in E. injection E as _ <-.
    exists []. split; [| reflexivity].
    eapply (wrote_trans _ _ _ [] []);
      [apply wrote_with_opened | apply wrote_with_err].
  - rewrite searchForFile_Dir in E.
    destruct (loop_reports_first ents IH _ _ _ _ E) as (paths & Hw & Hh).
    exists paths. split; [exact Hw | exact Hh].
Qed.

End First.

(** X18. A search that returns has reported the first resolved match of
    its scope in traversal order, as its first record: whatever is
    passed over after a match, the first match never is. *)
Theorem X18_first_match_is_reported
    (k : kernel) (dir : dirtree) (path filename : string)
    (isRecursive ignoreCase : bool) (s : proc) (b : bool) (s' : proc) :
  searchForFile k dir path filename isRecursive ignoreCase s = Returned b s' ->
  exists paths,
    pipe_out s' = pipe_out s ++ map (found_line (pid s) filename) paths
    /\ hd_error paths
       = hd_error
           (resolved_in_scope k isRecursive path dir filename ignoreCase).
Proof.
  intros E.
  destruct (search_reports_first k filename isRecursive ignoreCase dir
              path s b s' E) as (paths & [_ Ho] & Hh).
  exists paths. now split.
Qed.

Lemma X18_witness :
  exists paths,
    pipe_out
      (final (searchForFile plain_kernel
                (Dir [subdir "d1" [file "x"; subdir "d2" [file "a.txt"]];
                      file "a.txt"; subdir "d3" [file "a.txt"]])
                "/tmp/t" "a.txt" true false (fresh 100)))
    = pipe_out (fresh 100) ++ map (found_line (pid (fresh 100)) "a.txt") paths
    /\ hd_error paths
       = hd_error
           (resolved_in_scope plain_kernel true "/tmp/t"
              (Dir [subdir "d1" [file "x"; subdir "d2" [file "a.txt"]];
                    file "a.txt"; subdir "d3" [file "a.txt"]])
              "a.txt" false).
Proof.
  apply (X18_first_match_is_reported plain_kernel
           (Dir [subdir "d1" [file "x"; subdir "d2" [file "a.txt"]];
                 file "a.txt"; subdir "d3" [file "a.txt"]])
           "/tmp/t" "a.txt" true false (fresh 100) true).
  reflexivity.
Defined.

(* ------------------------------------------------------------------ *)
(** *** The number of children *)

(** X19. A run that the parent completes has forked exactly one child
    per argument after the search root: [argc - optind - 1] children,
    however often a file name is repeated. *)
Theorem X19_one_child_per_filename
    (k : kernel) (argv : list string) (opts : list ascii) (optind : Z)
    (root : dirtree) :
  0 <= optind ->
  status (main k argv opts optind root) = EXIT_SUCCESS ->
  Z.of_nat (List.length (children (main k argv opts optind root)))
  = Z.of_nat (List.length argv) - optind - 1.
Proof.
  intros Hpos. unfold main.
  destruct (getopt_loop opts false false) as [[isRecursive ignoreCase] |];
    [| discriminate].
  destruct (Z.geb_spec optind (Z.of_nat (List.length argv) - 1));
    [discriminate |].
  destruct (pipe_ret k =? -1); [discriminate |].
  match goal with
  | |- context [fork_loop ?k ?r ?sp ?a ?b ?fns 0] =>
      destruct (fork_loop_spec k r sp a b fns 0) as [Hok Hlen];
      destruct (fork_loop k r sp a b fns 0) as [cs ok]
  end.
  cbn [fst snd] in *.
  destruct (first_fork_failure k 0 _); subst ok; [discriminate |].
  intros _. cbn [children]. rewrite Hlen, length_skipn. lia.
Qed.

Lemma X19_witness :
  Z.of_nat
    (List.length
       (children
          (main plain_kernel ["myfind"; "-i"; "/tmp/t"; "a"; "b"; "a"]
             ["i"%char] 2 (Dir [file "A"]))))
  = Z.of_nat (List.length ["myfind"; "-i"; "/tmp/t"; "a"; "b"; "a"]%string)
    - 2 - 1.
Proof.
  apply X19_one_child_per_filename; [lia | reflexivity].
Defined.

(* ------------------------------------------------------------------ *)
(** *** Searching for the pseudo-entries *)

Lemma casefold_no_nul (s : string) :
  no_nul s = true ->
  casefold s
  = map (fun a => tolower (Z.of_nat (nat_of_ascii a))) (list_ascii_of_string s).
Proof.
  induction s as [| a r IH]; [reflexivity |].
  cbn [no_nul]. intros H. apply andb_true_iff in H as [Ha Hr].
  rewrite casefold_cons. apply negb_true_iff in Ha. rewrite Ha.
  cbn [list_ascii_of_string map]. now rewrite IH.
Qed.

Lemma tolower_dot (a : ascii) :
  tolower (Z.of_nat (nat_of_ascii a)) = 46 -> a = "."%char.
Proof.
  unfold tolower. intros H.
  assert (Hn : nat_of_ascii a = 46%nat).
  { destruct ((65 <=? Z.of_nat (nat_of_ascii a))
              && (Z.of_nat (nat_of_ascii a) <=? 90)) eqn:E; [| lia].
    apply andb_true_iff in E as [H1 _]. apply Z.leb_le in H1. lia. }
  rewrite <- (ascii_nat_embedding a), Hn. reflexivity.
Qed.

(** A name that matches a pseudo name is that pseudo name. *)
Lemma match_pseudo_is_pseudo (name filename : string) (ignoreCase : bool) :
  pseudo filename = true ->
  no_nul name = true ->
  isEqualString name filename ignoreCase = true ->
  pseudo name = true.
Proof.
  intros Hps Hnn Hm. destruct ignoreCase.
  - apply isEqualString_fold in Hm. rewrite casefold_no_nul in Hm by exact Hnn.
    unfold pseudo in Hps. apply orb_true_iff in Hps as [Hps | Hps];
      apply String.eqb_eq in Hps; subst filename; cbn in Hm.
    + destruct name as [| a [| b r]]; try discriminate.
      injection Hm as Ha. apply tolower_dot in Ha. now subst.
    + destruct name as [| a [| b [| c r]]]; try discriminate.
      injection Hm as Ha Hb. apply tolower_dot in Ha, Hb. now subst.
  - cbn in Hm. apply String.eqb_eq in Hm. now subst.
Qed.

Lemma files_in_names recursive :
  forall dir path fullpath name,
    names_are_c_strings dir = true ->
    In (fullpath, name) (files_in recursive path dir) ->
    pseudo name = false /\ no_nul name = true.
Proof.
  induction dir as [errno | ents IH] using dirtree_ind';
    intros path fullpath name Hc Hin; [destruct Hin |].
  rewrite files_in_Dir in Hin. apply in_flat_map in Hin as ([ent sub] & He & Hin).
  cbn [names_are_c_strings] in Hc. rewrite forallb_forall in Hc.
  specialize (Hc _ He). cbn [fst snd] in Hc.
  apply andb_true_iff in Hc as [Hnn Hsub].
  rewrite Forall_forall in IH. specialize (IH _ He). cbn [snd] in IH.
  unfold entry_files in Hin. cbn [fst snd] in Hin.
  destruct (pseudo (d_name ent)) eqn:Hps; [destruct Hin |].
  destruct (d_type ent =? DT_DIR).
  - destruct recursive; [| destruct Hin]. eapply IH; eassumption.
  - destruct (d_type ent =? DT_REG); [| destruct Hin].
    destruct Hin as [[= <- <-] | []]. now split.
Qed.

(** X20. Asking for [.] or [..] never finds anything: the entries of
    those names are passed over before any comparison and no other name
    matches them, with or without the case flag, so the task reports
    "File not found" (its one write accepted). *)
Theorem X20_pseudo_names_are_never_found
    (k : kernel) (root : dirtree) (searchpath filename : string)
    (isRecursive ignoreCase : bool) (p : Z) :
  pseudo filename = true ->
  names_are_c_strings root = true ->
  0 <= write_ret k p 0 ->
  exists s',
    child k root searchpath filename isRecursive ignoreCase (fresh p)
    = Exited EXIT_SUCCESS s'
    /\ pipe_out s' = [notfound_line p filename searchpath].
Proof.
  intros Hps Hc Hok. apply child_nothing; [| exact Hok].
  intros a (fullpath & name & Hin & Hm & _).
  destruct (files_in_names _ _ _ _ _ Hc Hin) as [Hnps Hnn].
  rewrite (match_pseudo_is_pseudo _ _ _ Hps Hnn Hm) in Hnps. discriminate.
Qed.

Lemma X20_witness :
  exists s',
    child plain_kernel
      (Dir [(Dirent "." DT_DIR, Dir []); (Dirent ".." DT_DIR, Dir []);
            (Dirent ".." DT_REG, NoDir ENOTDIR); file "..."; subdir "d" []])
      "/tmp/t" ".." true true (fresh 100)
    = Exited EXIT_SUCCESS s'
    /\ pipe_out s' = [notfound_line 100 ".." "/tmp/t"].
Proof.
  apply X20_pseudo_names_are_never_found; [reflexivity | reflexivity |].
  cbn. lia.
Defined.

(* ------------------------------------------------------------------ *)
(** *** What the parent prints *)

Lemma interleaved_from ws out :
  interleaved ws out ->
  forall x, In x out -> exists w, In w ws /\ In x w.
Proof.
  induction 1 as [ws Hall | before after x0 w0 out _ IH]; intros x Hx.
  - destruct Hx.
  - destruct Hx as [<- | Hx].
    + exists (x0 :: w0). split; [| now left].
      apply in_or_app. right. now left.
    + destruct (IH x Hx) as (w & Hw & Hxw).
      apply in_app_or in Hw as [Hw | [<- | Hw]].
      * exists w. split; [apply in_or_app; now left | exact Hxw].
      * exists (x0 :: w0). split; [| now right].
        apply in_or_app. right. now left.
      * exists w. split; [| exact Hxw].
        apply in_or_app. right. now right.
Qed.

(** Whatever its outcome, a child has put nothing in the pipe but its
    own records. *)
Lemma child_output_attributable
    (k : kernel) (root : dirtree) (searchpath filename : string)
    (isRecursive ignoreCase : bool) (p : Z) :
  Forall (line_of_task p filename searchpath)
    (pipe_out
       (final (child k root searchpath filename isRecursive ignoreCase
                 (fresh p)))).
Proof.
  rewrite child_eq.
  destruct (search_adds_matches k filename isRecursive ignoreCase root
              searchpath (fresh p)) as (paths & [Hp Ho] & _).
  assert (Hfound : Forall (line_of_task p filename searchpath)
                     (map (found_line p filename) paths)).
  { apply Forall_forall. intros line Hin.
    apply in_map_iff in Hin as (a & <- & _). right. now exists a. }
  destruct (searchForFile k root searchpath filename isRecursive ignoreCase
              (fresh p)) as [[|] s1 | st s1];
    cbn [final fresh pid pipe_out app] in *.
  - now rewrite Ho.
  - destruct (_ <? 0); cbn [final with_err with_pipe pipe_out].
    + now rewrite Ho.
    + rewrite Ho, Hp. apply Forall_app. split; [exact Hfound |].
      constructor; [now left | constructor].
  - now rewrite Ho.
Qed.

(** X21. Every line the parent prints is a record of the task of one of
    the requested file names: a match record or the "File not found"
    record of the [j]-th file name, carrying the pid of the [j]-th
    child. *)
Theorem X21_printed_lines_are_task_records
    (k : kernel) (argv : list string) (opts : list ascii) (optind : Z)
    (root : dirtree) (out : list string) (line : string) :
  prints (main k argv opts optind root) out ->
  In line out ->
  exists j filename p,
    nth_error (skipn (Z.to_nat (optind + 1)) argv) j = Some filename
    /\ fork_ret k j = Some p
    /\ line_of_task p filename (nth (Z.to_nat optind) argv ""%string) line.
Proof.
  unfold prints, main.
  destruct (getopt_loop opts false false) as [[isRecursive ignoreCase] |];
    [| cbn; now intros -> []].
  destruct (optind >=? Z.of_nat (List.length argv) - 1);
    [cbn; now intros -> [] |].
  destruct (pipe_ret k =? -1); [cbn; now intros -> [] |].
  match goal with
  | |- context [fork_loop ?k ?r ?sp ?a ?b ?fns 0] =>
      pose proof (fork_loop_forked k r sp a b fns 0) as Hforked;
      destruct (fork_loop k r sp a b fns 0) as [cs [|]]
  end; cbn [fst drained children] in *; [| now intros -> []].
  intros Hout Hline.
  destruct (interleaved_from _ _ Hout line Hline) as (w & Hw & Hlw).
  apply in_map_iff in Hw as (c & <- & Hc).
  apply In_nth_error in Hc as [j Hj].
  destruct (Hforked j c Hj) as (filename & p & Hf & Hp & ->).
  exists j, filename, p. split; [exact Hf |]. split; [exact Hp |].
  pose proof (child_output_attributable k root
                (nth (Z.to_nat optind) argv ""%string) filename
                isRecursive ignoreCase p) as Hall.
  rewrite Forall_forall in Hall. now apply Hall.
Qed.

Lemma X21_witness :
  exists j filename p,
    nth_error (skipn (Z.to_nat (1 + 1)) ["myfind"; "/tmp/t"; "a"; "b"]%string) j
    = Some filename
    /\ fork_ret plain_kernel j = Some p
    /\ line_of_task p filename
         (nth (Z.to_nat 1) ["myfind"; "/tmp/t"; "a"; "b"]%string ""%string)
         (notfound_line 101 "b" "/tmp/t").
Proof.
  apply (X21_printed_lines_are_task_records plain_kernel
           ["myfind"; "/tmp/t"; "a"; "b"] [] 1 (Dir [file "a"])
           [notfound_line 101 "b" "/tmp/t"; found_line 100 "a" "/tmp/t/a"]).
  - apply (interleaved_next [[found_line 100 "a" "/tmp/t/a"]] [] _ []).
    apply (interleaved_next [] [[]] _ []).
    apply interleaved_end. repeat constructor.
  - now left.
Defined.

(* ------------------------------------------------------------------ *)
(** *** The records of one task in the output of the run *)

Lemma string_of_uint_colon_free (d : Decimal.uint) :
  colon_free (NilEmpty.string_of_uint d) = true.
Proof. induction d; cbn; auto. Qed.

Lemma to_string_colon_free (p : Z) : colon_free (to_string p) = true.
Proof.
  unfold to_string.
  destruct (Z.to_int p) as [d | d]; cbn [NilZero.string_of_int];
    destruct d; cbn; auto using string_of_uint_colon_free.
Qed.

(** [std::to_string] tells integers apart. *)
Lemma to_string_inj (p q : Z) : to_string p = to_string q -> p = q.
Proof.
  unfold to_string. intros H. apply DecimalZ.to_int_inj.
  assert (Hparse : forall z,
             NilZero.int_of_string (NilZero.string_of_int (Z.to_int z))
             = Some (Z.to_int z)).
  { intros z. apply NilZero.isi; destruct z; cbn; try discriminate;
      intros [= E]; now apply DecimalPos.Unsigned.to_uint_nonnil in E. }
  pose proof (Hparse p) as Hp. rewrite H, Hparse in Hp. congruence.
Qed.

(** What stands before the first colon is determined by the line. *)
Lemma colon_prefix_unique (s1 s2 r1 r2 : string) :
  colon_free s1 = true ->
  colon_free s2 = true ->
  (s1 ++ String ":" r1)%string = (s2 ++ String ":" r2)%string ->
  s1 = s2.
Proof.
  revert s2. induction s1 as [| c s1 IH]; intros [| d s2] H1 H2 E;
    cbn in *; trivial.
  - injection E as <- _. discriminate.
  - injection E as -> _. discriminate.
  - injection E as -> E. f_equal.
    apply andb_true_iff in H1 as [_ H1]. apply andb_true_iff in H2 as [_ H2].
    now apply IH.
Qed.

(** A record of the task [q] is the "File not found" record of the task
    [p] only when [q] is [p]. *)
Lemma record_pid (p q : Z) (f f' sp sp' line : string) :
  line_of_task q f' sp' line ->
  line = notfound_line p f sp ->
  q = p.
Proof.
  intros Hline ->. apply to_string_inj.
  destruct Hline as [E | [a E]];
    unfold notfound_line, found_line in E; cbn [append] in E;
    symmetry in E;
    apply colon_prefix_unique in E; auto using to_string_colon_free.
Qed.

Lemma concat_all_nil {A} (ws : list (list A)) :
  Forall (fun w => w = []) ws -> List.concat ws = [].
Proof. induction 1 as [| w ws -> _ IH]; [reflexivity | exact IH]. Qed.

(** The arrival order keeps the number of copies of every record. *)
Lemma interleaved_count ws out :
  interleaved ws out ->
  forall x, count_occ string_dec out x = count_occ string_dec (List.concat ws) x.
Proof.
  induction 1 as [ws Hall | before after x0 w0 out _ IH]; intros x.
  - now rewrite concat_all_nil.
  - rewrite concat_app, count_occ_app. cbn [List.concat count_occ app].
    rewrite IH, concat_app, count_occ_app. cbn [List.concat].
    rewrite !count_occ_app. destruct (string_dec x0 x); lia.
Qed.

(** A record that only the [j]-th writer has is as often in the whole as
    in what that writer wrote. *)
Lemma count_concat_at {A} (dec : forall a b : A, {a = b} + {a <> b})
    (x : A) :
  forall (ws : list (list A)) (j : nat) (w : list A),
    nth_error ws j = Some w ->
    (forall i w', i <> j -> nth_error ws i = Some w' ->
                  count_occ dec w' x = 0%nat) ->
    count_occ dec (List.concat ws) x = count_occ dec w x.
Proof.
  induction ws as [| w0 ws IH]; intros j w Hj Hother.
  - destruct j; discriminate.
  - cbn [List.concat]. rewrite count_occ_app. destruct j as [| j].
    + injection Hj as ->.
      assert (Hrest : count_occ dec (List.concat ws) x = 0%nat).
      { apply count_occ_not_In. intros Hin.
        apply in_concat in Hin as (w' & Hw' & Hx).
        apply In_nth_error in Hw' as [i Hi].
        specialize (Hother (S i) w' (Nat.neq_succ_0 i) Hi).
        apply (count_occ_not_In dec) in Hother. contradiction. }
      lia.
    + rewrite (Hother 0%nat w0 (Nat.neq_0_succ j) eq_refl).
      apply (IH j w Hj). intros i w' Hne Hi.
      apply (Hother (S i) w'); [lia | exact Hi].
Qed.

(** C3. In a run that the parent completes, with task ids that are
    unique: for every requested occurrence of a file name, when no
    regular file of the traversal scope matches the name under the case
    policy and the task's [write] is accepted, the task's own output is
    exactly one "File not found" record, and what the parent prints holds
    that record exactly once, whatever the arrival order. *)
Theorem C3_one_notfound_line_per_task
    (k : kernel) (argv : list string) (opts : list ascii) (optind : Z)
    (root : dirtree) (j : nat) (filename : string) (p : Z) :
  status (main k argv opts optind root) = EXIT_SUCCESS ->
  nth_error (skipn (Z.to_nat (optind + 1)) argv) j = Some filename ->
  fork_ret k j = Some p ->
  matches_in_scope (existsb (Ascii.eqb "R") opts)
    (nth (Z.to_nat optind) argv ""%string) root filename
    (existsb (Ascii.eqb "i") opts) = [] ->
  0 <= write_ret k p 0 ->
  (forall i q, i <> j -> fork_ret k i = Some q -> q <> p) ->
  exists s',
    nth_error (children (main k argv opts optind root)) j
    = Some (Exited EXIT_SUCCESS s')
    /\ pipe_out s'
       = [notfound_line p filename (nth (Z.to_nat optind) argv ""%string)]
    /\ forall out,
        prints (main k argv opts optind root) out ->
        count_occ string_dec out
          (notfound_line p filename (nth (Z.to_nat optind) argv ""%string))
        = 1%nat.
Proof.
  intros Hst Hj Hfork Hnone Hok Hpids. unfold prints. revert Hst. unfold main.
  rewrite getopt_loop_closed_form.
  destruct (forallb known_option opts); [| discriminate].
  destruct (optind >=? Z.of_nat (List.length argv) - 1); [discriminate |].
  destruct (pipe_ret k =? -1); [discriminate |].
  cbn [orb].
  match goal with
  | |- context [fork_loop ?k ?r ?sp ?a ?b ?fns 0] =>
      pose proof (fork_loop_forked k r sp a b fns 0) as Hforked;
      pose proof (fork_loop_children k r sp a b fns 0) as Hchildren;
      destruct (fork_loop k r sp a b fns 0) as [cs [|]]
  end; [| discriminate].
  intros _. cbn [fst children drained] in *.
  destruct (Hchildren cs eq_refl j filename Hj) as (p' & Hp' & Hc).
  cbn [Nat.add] in Hp'. assert (p' = p) as -> by congruence.
  destruct (task_no_match_exactly_one_notfound k root _ filename _ _ p
              Hnone Hok) as (s' & Hchild & Hpipe).
  rewrite Hchild in Hc.
  exists s'. split; [exact Hc |]. split; [exact Hpipe |].
  intros out Hout.
  rewrite (interleaved_count _ _ Hout).
  rewrite (count_concat_at string_dec _ _ j (pipe_out s')).
  - rewrite Hpipe. cbn. destruct (string_dec _ _); congruence.
  - rewrite nth_error_map, Hc. reflexivity.
  - intros i w' Hne Hi.
    rewrite nth_error_map in Hi.
    destruct (nth_error cs i) as [c |] eqn:Hci; [| discriminate].
    injection Hi as <-.
    destruct (Hforked i c Hci) as (f' & q & _ & Hq & ->).
    apply count_occ_not_In. intros Hin.
    pose proof (child_output_attributable k root
                  (nth (Z.to_nat optind) argv ""%string) f'
                  (existsb (Ascii.eqb "R") opts)
                  (existsb (Ascii.eqb "i") opts) q) as Hall.
    rewrite Forall_forall in Hall.
    apply (Hpids i q Hne Hq).
    exact (record_pid _ _ _ _ _ _ _ (Hall _ Hin) eq_refl).
Qed.

Lemma C3_witness :
  exists s',
    nth_error
      (children (main plain_kernel ["myfind"; "/tmp/t"; "zz"; "a.txt"; "zz"]
                   [] 1 (Dir [file "a.txt"; subdir "sub" [file "zz"]])))
      2
    = Some (Exited EXIT_SUCCESS s')
    /\ pipe_out s'
       = [notfound_line 102 "zz"
            (nth (Z.to_nat 1)
               ["myfind"; "/tmp/t"; "zz"; "a.txt"; "zz"]%string ""%string)]
    /\ forall out,
        prints (main plain_kernel ["myfind"; "/tmp/t"; "zz"; "a.txt"; "zz"]
                  [] 1 (Dir [file "a.txt"; subdir "sub" [file "zz"]])) out ->
        count_occ string_dec out
          (notfound_line 102 "zz"
             (nth (Z.to_nat 1)
                ["myfind"; "/tmp/t"; "zz"; "a.txt"; "zz"]%string ""%string))
        = 1%nat.
Proof.
  apply (C3_one_notfound_line_per_task plain_kernel
           ["myfind"; "/tmp/t"; "zz"; "a.txt"; "zz"] [] 1
           (Dir [file "a.txt"; subdir "sub" [file "zz"]]) 2 "zz" 102);
    [reflexivity | reflexivity | reflexivity | reflexivity | cbn; lia |].
  intros i q Hne H.
  assert (Hq : 100 + Z.of_nat i = q)
    by exact (f_equal (fun o => match o with Some z => z | None => 0 end) H).
  lia.
Defined.

(** The claim C3 as worded fails on the run's output.  [myfind /tmp/t zz
    zz] on a root without [zz] prints two "File not found" lines for
    [zz], one per task; and when the second [fork] of [myfind /tmp/t zz
    b.txt] fails, the task of [zz] has written its "File not found"
    record and the parent prints nothing. *)
Lemma C3_counterexample :
  (matches_in_scope false "/tmp/t" (Dir [file "a.txt"]) "zz" false = []
   /\ forall out,
       prints (main plain_kernel ["myfind"; "/tmp/t"; "zz"; "zz"] [] 1
                 (Dir [file "a.txt"])) out ->
       In (notfound_line 100 "zz" "/tmp/t") out
       /\ In (notfound_line 101 "zz" "/tmp/t") out
       /\ notfound_line 100 "zz" "/tmp/t" <> notfound_line 101 "zz" "/tmp/t")
  /\ (nth_error
        (children (main (failing_fork_kernel 1)
                     ["myfind"; "/tmp/t"; "zz"; "b.txt"] [] 1
                     (Dir [file "a.txt"])))
        0
      = Some (Exited EXIT_SUCCESS
                {| pid := 100;
                   pipe_out := [notfound_line 100 "zz" "/tmp/t"];
                   err_out := [];
                   opened := ["/tmp/t"%string] |})
      /\ forall out,
          prints (main (failing_fork_kernel 1)
                    ["myfind"; "/tmp/t"; "zz"; "b.txt"] [] 1
                    (Dir [file "a.txt"])) out ->
          out = []).
Proof.
  split; [split; [reflexivity |] | split; [reflexivity |]].
  - intros out Hout.
    split; [| split].
    + apply (interleaved_In _ _ Hout [notfound_line 100 "zz" "/tmp/t"]);
        [left; reflexivity | left; reflexivity].
    + apply (interleaved_In _ _ Hout [notfound_line 101 "zz" "/tmp/t"]);
        [right; left; reflexivity | left; reflexivity].
    + intros E. apply (record_pid 101 100 "zz" "zz" "/tmp/t" "/tmp/t") in E;
        [discriminate | now left].
  - intros out Hout. exact Hout.
Qed.

(** The claim C2 as worded fails when a later [fork] fails.  In [myfind
    /tmp/t a.txt b.txt] with the second [fork] failing, the task of
    [a.txt] has ended with [exit(EXIT_SUCCESS)] and its match record is
    written, but the parent has left before reading the pipe: the run
    prints no line at all, so none for [a.txt]. *)
Lemma C2_counterexample :
  nth_error (skipn (Z.to_nat (1 + 1))
               ["myfind"; "/tmp/t"; "a.txt"; "b.txt"]%string) 0
  = Some "a.txt"%string
  /\ nth_error
       (children (main (failing_fork_kernel 1)
                    ["myfind"; "/tmp/t"; "a.txt"; "b.txt"] [] 1
                    (Dir [file "a.txt"])))
       0
     = Some (Exited EXIT_SUCCESS
               {| pid := 100;
                  pipe_out := [found_line 100 "a.txt" "/tmp/t/a.txt"];
                  err_out := [];
                  opened := ["/tmp/t"%string] |})
  /\ forall out,
      prints (main (failing_fork_kernel 1)
                ["myfind"; "/tmp/t"; "a.txt"; "b.txt"] [] 1
                (Dir [file "a.txt"])) out ->
      ~ exists line, In line out.
Proof.
  split; [reflexivity |]. split; [reflexivity |].
  intros out Hout [line Hin].
  assert (out = []) as -> by exact Hout. destruct Hin.
Qed.
